(** * Metropolis sweeps on a 2-D spin lattice: a model of [montecarlo.py]

    The class [MonteCarlo] of [montecarlo.py] is embedded as a record of its
    attributes together with a small exception-and-state monad [Py] in which
    its methods run.

    Scope of the model.
    - Spins, the coupling [J], the field [epsilon], [k_B] and [T] are
      integer valued. The methods are given twice where the machine range
      matters: computed in [Z], which is what the source returns for Python
      [int] cells and for int64 cells as long as no operation leaves the
      int64 range; and, for [E_flip] and [summary], on int64 operands with
      the wrap-around of every operation written out ([E_flip_int64],
      [summary_int64]). The two are related below: the int64 result is the
      [Z] result reduced modulo [2^64]. Arrays of float64 spins are not
      modelled.
    - A float64 enters only as the quotient of two integers, through
      [np.exp], and as a sample of [np.random.ranf]; the type [f64] keeps the
      IEEE special values apart from the finite ones, whose value is the
      rational that the float rounds.
    - [np.random.ranf] is the global generator: its output sequence is the
      parameter [ranf] and the state counts the samples taken so far.
    - Plotting ([description]) and the process pool ([magnetization_Ts]) are
      not modelled. *)

From Stdlib Require Import ZArith QArith Lia.
From stdpp Require Import base tactics option list strings.

Local Open Scope Z_scope.

(** ** Exceptions and results *)

Inductive exn : Type :=
  | Exception (msg : string)
  | IndexError
  | ValueError
  | ZeroDivisionError.

Inductive result (A : Type) : Type :=
  | Ok (a : A)
  | Raise (e : exn).
Arguments Ok {A} a.
Arguments Raise {A} e.

(** ** Numbers *)

(** A scalar is a plain Python number or a NumPy scalar.  The two differ
    in how [/] treats a zero divisor. *)
Inductive scalar : Type :=
  | PyNum (z : Z)
  | NpNum (z : Z).

Definition val (x : scalar) : Z :=
  match x with PyNum z => z | NpNum z => z end.

(** [x * y]: the product is a Python number only when both factors are. *)
Definition smul (x y : scalar) : scalar :=
  match x, y with
  | PyNum a, PyNum b => PyNum (a * b)
  | _, _ => NpNum (val x * val y)
  end.

(** Unary minus keeps the kind. *)
Definition sneg (x : scalar) : scalar :=
  match x with PyNum a => PyNum (- a) | NpNum a => NpNum (- a) end.

(** float64 values. *)
Inductive f64 : Type :=
  | NaN
  | NInf
  | PInf
  | Fin (q : Q).

(** NumPy true division of integers: a zero divisor gives [nan] or a signed
    infinity (and a warning), never an exception. *)
Definition np_true_divide (a b : Z) : f64 :=
  if b =? 0 then
    if a =? 0 then NaN else if a <? 0 then NInf else PInf
  else Fin (inject_Z a / inject_Z b)%Q.

(** [x / y]: Python raises on a zero divisor when both operands are Python
    numbers; as soon as one is a NumPy scalar the division is NumPy's. *)
Definition truediv (x y : scalar) : result f64 :=
  match x, y with
  | PyNum a, PyNum b =>
      if b =? 0 then Raise ZeroDivisionError
      else Ok (Fin (inject_Z a / inject_Z b)%Q)
  | _, _ => Ok (np_true_divide (val x) (val y))
  end.

(** [x <= y] on float64: false as soon as one side is [nan]. *)
Definition f64_le (x y : f64) : bool :=
  match x, y with
  | NaN, _ | _, NaN => false
  | NInf, _ => true
  | _, PInf => true
  | PInf, _ => false
  | _, NInf => false
  | Fin a, Fin b => Qle_bool a b
  end.

(** ** Arrays *)

(** The coupling [J]: a number, or a one-dimensional array. *)
Inductive coupling : Type :=
  | Jscalar (j : Z)
  | Jarray (js : list Z).

(** [J * v] with NumPy broadcasting against the one-dimensional [v]. *)
Definition np_mul (J : coupling) (v : list Z) : result (list Z) :=
  match J with
  | Jscalar j => Ok (map (Z.mul j) v)
  | Jarray js =>
      if decide (length js = length v) then Ok (zip_with Z.mul js v)
      else match js, v with
           | [j], _ => Ok (map (Z.mul j) v)
           | _, [x] => Ok (map (fun j => j * x) js)
           | _, _ => Raise ValueError
           end
  end.

(** [v.sum()] *)
Definition np_sum (v : list Z) : Z := foldr Z.add 0 v.

(** A two-dimensional array: its shape and its cells in row-major order. *)
Record ndarray : Type := mk_ndarray {
  shape : nat * nat;
  data : list Z
}.

Definition size (a : ndarray) : nat := length (data a).

Definition wf_ndarray (a : ndarray) : Prop :=
  length (data a) = ((shape a).1 * (shape a).2)%nat.

(** NumPy resolves an index [i] along an axis of length [n]: a negative
    index counts from the end, anything outside [-n, n) is an error. *)
Definition norm_index (n : nat) (i : Z) : option nat :=
  if (0 <=? i) && (i <? Z.of_nat n) then Some (Z.to_nat i)
  else if (- Z.of_nat n <=? i) && (i <? 0) then Some (Z.to_nat (i + Z.of_nat n))
  else None.

(** The offset of cell [(i, j)] in [data]. *)
Definition offset (a : ndarray) (i j : Z) : option nat :=
  match norm_index (shape a).1 i, norm_index (shape a).2 j with
  | Some r, Some c => Some (r * (shape a).2 + c)%nat
  | _, _ => None
  end.

(** [a[i, j]] *)
Definition getitem (a : ndarray) (i j : Z) : result Z :=
  match offset a i j with
  | Some k => match data a !! k with Some v => Ok v | None => Raise IndexError end
  | None => Raise IndexError
  end.

(** [a[i, j] = v], on a copy. *)
Definition setitem (a : ndarray) (i j : Z) (v : Z) : result ndarray :=
  match offset a i j with
  | Some k =>
      if decide (k < length (data a))%nat
      then Ok (mk_ndarray (shape a) (<[k := v]> (data a)))
      else Raise IndexError
  | None => Raise IndexError
  end.

(** [(a > 0).sum()], [(a < 0).sum()] and [a.sum()]; the sum is computed
    in [Z], and [total64] below is the int64 sum. *)
Definition count_pos (a : ndarray) : Z :=
  Z.of_nat (length (filter (fun x => 0 < x) (data a))).
Definition count_neg (a : ndarray) : Z :=
  Z.of_nat (length (filter (fun x => x < 0) (data a))).
Definition total (a : ndarray) : Z := np_sum (data a).

(** [range(n)] *)
Definition range (n : nat) : list Z := map Z.of_nat (seq 0 n).

(** ** The instance and the monad of its methods *)

Record MonteCarlo : Type := mk_MonteCarlo {
  lattice : ndarray;
  dimen : nat * nat;
  J : coupling;
  epsilon : Z;
  k_B : scalar;
  T : scalar
}.

(** [__init__]: the defaults are [J=1], [epsilon=0], [k_B=1], [T=0]. *)
Definition init (lattice : ndarray) (J : coupling) (epsilon : Z)
    (k_B T : scalar) : MonteCarlo :=
  mk_MonteCarlo lattice (shape lattice) J epsilon k_B T.

Definition init_default (lattice : ndarray) : MonteCarlo :=
  init lattice (Jscalar 1) 0 (PyNum 1) (PyNum 0).

(** The state a method runs in: the instance and the number of samples
    already taken from the global generator. *)
Record world : Type := mk_world {
  self : MonteCarlo;
  drawn : nat
}.

(** A computation returns or raises, and leaves a state either way. *)
Definition Py (A : Type) : Type := world -> result A * world.

#[export] Instance Py_ret : MRet Py := fun A a w => (Ok a, w).
#[export] Instance Py_bind : MBind Py := fun A B f m w =>
  match m w with
  | (Ok a, w') => f a w'
  | (Raise e, w') => (Raise e, w')
  end.

Definition raise {A} (e : exn) : Py A := fun w => (Raise e, w).
Definition lift {A} (r : result A) : Py A := fun w => (r, w).
Definition gets {A} (f : MonteCarlo -> A) : Py A := fun w => (Ok (f (self w)), w).
Definition set_lattice (a : ndarray) : Py unit := fun w =>
  let s := self w in
  (Ok tt, mk_world (mk_MonteCarlo a (dimen s) (J s) (epsilon s) (k_B s) (T s))
                   (drawn w)).
Definition set_T (t : scalar) : Py unit := fun w =>
  let s := self w in
  (Ok tt, mk_world (mk_MonteCarlo (lattice s) (dimen s) (J s) (epsilon s) (k_B s) t)
                   (drawn w)).

(** [for x in xs: body(x)] *)
Fixpoint for_ {A} (xs : list A) (body : A -> Py unit) : Py unit :=
  match xs with
  | [] => mret tt
  | x :: xs' => body x ≫= fun _ => for_ xs' body
  end.

(** A loop that threads a local variable [acc] through its body. *)
Fixpoint for_acc {A B} (xs : list A) (acc : B) (body : B -> A -> Py B) : Py B :=
  match xs with
  | [] => mret acc
  | x :: xs' => body acc x ≫= fun acc' => for_acc xs' acc' body
  end.

(** ** The methods *)

Section Methods.

(** The output sequence of [np.random.ranf], and [np.exp] on finite
    arguments. *)
Variable ranf : nat -> Q.
Variable exp_fin : Q -> f64.

Definition np_random_ranf : Py Q := fun w =>
  (Ok (ranf (drawn w)), mk_world (self w) (S (drawn w))).

Definition np_exp (x : f64) : f64 :=
  match x with
  | NaN => NaN
  | NInf => Fin 0
  | PInf => PInf
  | Fin q => exp_fin q
  end.

(** [summary] *)
Definition summary : Py (Z * Z * Z) :=
  a ← gets lattice;
  mret (count_pos a, count_neg a, total a).

(** [E_flip], computed in [Z]; [coord] is accepted and not used. On int64
    operands this is the value returned as long as no operation overflows;
    [E_flip_int64] below is the same expression with the overflow. *)
Definition E_flip (coord : Z * Z) (site_spin : Z) (neighbor_spin : list Z) : Py Z :=
  j ← gets J;
  eps ← gets epsilon;
  jn ← lift (np_mul j neighbor_spin);
  mret (-2 * (site_spin * np_sum jn + eps * site_spin)).

(** [flip_decider]: the sample is taken before the right-hand side of
    [<=] is evaluated. *)
Definition flip_decider (E_flip : scalar) : Py bool :=
  if val E_flip <? 0 then mret true
  else
    u ← np_random_ranf;
    kB ← gets k_B;
    t ← gets T;
    x ← lift (truediv (sneg E_flip) (smul kB t));
    if f64_le (Fin u) (np_exp x) then mret true else mret false.

(** [self.lattice[i, j]] *)
Definition lattice_get (i j : Z) : Py Z :=
  a ← gets lattice;
  lift (getitem a i j).

(** [self.lattice[i, j] *= -1], in place. *)
Definition lattice_flip (i j : Z) : Py unit :=
  a ← gets lattice;
  v ← lift (getitem a i j);
  a' ← lift (setitem a i j (v * -1));
  set_lattice a'.

(** The four appends of the [OBC] branch: left, right, up, down. *)
Definition spin_neighbor_OBC (n_i n_j : Z) : Py (list Z) :=
  d ← gets dimen;
  left ← (if n_j =? 0 then mret 0 else lattice_get n_i (n_j - 1));
  right ← (if n_j =? Z.of_nat d.2 - 1 then mret 0 else lattice_get n_i (n_j + 1));
  up ← (if n_i =? 0 then mret 0 else lattice_get (n_i - 1) n_j);
  down ← (if n_i =? Z.of_nat d.1 - 1 then mret 0 else lattice_get (n_i + 1) n_j);
  mret [left; right; up; down].

(** The four appends of the [PBC] branch: the left and up neighbours are
    read at [n_j-1] and [n_i-1] with no test, the right and down ones go
    back to index 0 on the last column and row. *)
Definition spin_neighbor_PBC (n_i n_j : Z) : Py (list Z) :=
  d ← gets dimen;
  left ← lattice_get n_i (n_j - 1);
  right ← (if n_j =? Z.of_nat d.2 - 1 then lattice_get n_i 0
           else lattice_get n_i (n_j + 1));
  up ← lattice_get (n_i - 1) n_j;
  down ← (if n_i =? Z.of_nat d.1 - 1 then lattice_get 0 n_j
          else lattice_get (n_i + 1) n_j);
  mret [left; right; up; down].

(** The body of the inner loop, for a given way to collect neighbours.
    The flip energy is computed from array elements, so what reaches
    [flip_decider] is a NumPy scalar. *)
Definition visit (spin_neighbor : Z -> Z -> Py (list Z)) (n_i n_j : Z) : Py unit :=
  spin_ij ← lattice_get n_i n_j;
  ns ← spin_neighbor n_i n_j;
  flip_energy ← E_flip (n_i, n_j) spin_ij ns;
  flip_decider (NpNum flip_energy) ≫= fun b : bool =>
  if b then lattice_flip n_i n_j else mret tt.

(** The two nested [for] loops over [range(self.dimen[0])] and
    [range(self.dimen[1])]. *)
Definition scan (spin_neighbor : Z -> Z -> Py (list Z)) : Py unit :=
  d0 ← gets dimen;
  for_ (range d0.1) (fun n_i =>
    d1 ← gets dimen;
    for_ (range d1.2) (fun n_j => visit spin_neighbor n_i n_j)).

Definition BC_message : string :=
  "`BC` can get values of `OBC` or `PBC`."%string.

(** [sweep] *)
Definition sweep (BC : string) : Py unit :=
  if decide (BC = "OBC"%string) then scan spin_neighbor_OBC
  else if decide (BC = "PBC"%string) then scan spin_neighbor_PBC
  else raise (Exception BC_message).

Definition n_message : string :=
  "'n' should be a positive integer larger than 0."%string.

(** [magnetization_Ns]; [n] is an integer, so [int(n)] is [n]. *)
Definition magnetization_Ns (T : scalar) (n : Z) (BC : string) : Py f64 :=
  set_T T ≫= fun _ =>
  if n <? 1 then raise (Exception n_message)
  else
    M ← for_acc (range (Z.to_nat n)) 0 (fun (M : Z) (_ : Z) =>
           sweep BC ≫= fun _ =>
           s ← summary;
           mret (M + s.2));
    lift (truediv (NpNum M) (PyNum n)).

End Methods.

(** ** The same arithmetic on int64 operands *)

(** The int64 value that an integer wraps to: its representative modulo
    [2^64] in [-2^63, 2^63). *)
Definition wrap64 (z : Z) : Z :=
  (z + 9223372036854775808) mod 18446744073709551616 - 9223372036854775808.

Definition in_int64 (z : Z) : Prop :=
  -9223372036854775808 <= z < 9223372036854775808.

(** [a * b] and [a + b] on int64 operands. *)
Definition mul64 (a b : Z) : Z := wrap64 (a * b).
Definition add64 (a b : Z) : Z := wrap64 (a + b).

(** [J * v] on int64 operands, with the same broadcasting as [np_mul]. *)
Definition np_mul64 (J : coupling) (v : list Z) : result (list Z) :=
  match J with
  | Jscalar j => Ok (map (mul64 j) v)
  | Jarray js =>
      if decide (length js = length v) then Ok (zip_with mul64 js v)
      else match js, v with
           | [j], _ => Ok (map (mul64 j) v)
           | _, [x] => Ok (map (fun j => mul64 j x) js)
           | _, _ => Raise ValueError
           end
  end.

(** [v.sum()] of an int64 array: the accumulator wraps at every step. *)
Definition np_sum64 (v : list Z) : Z := fold_left add64 v 0.

Definition total64 (a : ndarray) : Z := np_sum64 (data a).

(** [E_flip] on int64 operands: [J] and [epsilon] are Python integers that
    fit int64, the spins are elements of an int64 array. *)
Definition E_flip_int64 (coord : Z * Z) (site_spin : Z) (neighbor_spin : list Z)
    : Py Z :=
  j ← gets J;
  eps ← gets epsilon;
  jn ← lift (np_mul64 j neighbor_spin);
  mret (mul64 (-2) (add64 (mul64 site_spin (np_sum64 jn)) (mul64 eps site_spin))).

(** [summary] of an int64 lattice. *)
Definition summary_int64 : Py (Z * Z * Z) :=
  a ← gets lattice;
  mret (count_pos a, count_neg a, total64 a).

(** ** Vocabulary of the statements *)

(** One sample more taken from the generator, the instance untouched. *)
Definition tick (w : world) : world := mk_world (self w) (S (drawn w)).

(** The instance with its temperature replaced. *)
Definition with_T (t : scalar) (w : world) : world :=
  mk_world (mk_MonteCarlo (lattice (self w)) (dimen (self w)) (J (self w))
              (epsilon (self w)) (k_B (self w)) t) (drawn w).

(** The part of the state that is fixed at construction: the two records
    of the dimensions, the magnitude of every cell, and the parameters other
    than the temperature. *)
Definition frame (w : world) :
    nat * nat * (nat * nat) * list Z * coupling * Z * scalar :=
  (dimen (self w), shape (lattice (self w)),
   Z.abs <$> data (lattice (self w)), J (self w), epsilon (self w), k_B (self w)).

(** A computation is stable when it keeps the frame, however it ends. *)
Definition stable {A} (m : Py A) : Prop := forall w, frame (m w).2 = frame w.

(** The cell in row [r] and column [c], for coordinates inside the grid. *)
Definition cell (a : ndarray) (r c : nat) : option Z :=
  if decide (r < (shape a).1 /\ c < (shape a).2)%nat
  then data a !! (r * (shape a).2 + c)%nat
  else None.

(** The instance is as [__init__] builds it from a rectangular array. *)
Definition wf_world (w : world) : Prop :=
  dimen (self w) = shape (lattice (self w)) /\ wf_ndarray (lattice (self w)).

(** [J] multiplies against four neighbours without a shape error. *)
Definition broadcasts_4 (j : coupling) : Prop :=
  match j with
  | Jscalar _ => True
  | Jarray js => length js = 4%nat \/ length js = 1%nat
  end.

Definition ready (w : world) : Prop :=
  wf_world w /\ broadcasts_4 (J (self w)).

(** The neighbour collectors that [sweep] uses. *)
Definition collects (sn : Z -> Z -> Py (list Z)) : Prop :=
  (forall i j, stable (sn i j))
  /\ forall w r c, wf_world w ->
       (r < (shape (lattice (self w))).1)%nat ->
       (c < (shape (lattice (self w))).2)%nat ->
       exists l rt u d, sn (Z.of_nat r) (Z.of_nat c) w = (Ok [l; rt; u; d], w).

Section Iterated.
Variable ranf : nat -> Q.
Variable exp_fin : Q -> f64.
Variable BC : string.

(** The state that one call of [sweep] leaves. *)
Definition sweep_step (w : world) : world := (sweep ranf exp_fin BC w).2.

(** The state after [k] calls of [sweep] in a row. *)
Fixpoint after_sweeps (k : nat) (w : world) : world :=
  match k with
  | O => w
  | S k' => after_sweeps k' (sweep_step w)
  end.

(** The total spin found after each of [k] calls of [sweep] in a row. *)
Fixpoint totals (k : nat) (w : world) : list Z :=
  match k with
  | O => []
  | S k' => total (lattice (self (sweep_step w))) :: totals k' (sweep_step w)
  end.

End Iterated.

(** *** Instances used in examples *)

(** A one-cell lattice, used where an instance has to be named. *)
Definition cell_1x1 : ndarray := mk_ndarray (1%nat, 1%nat) [1].

Definition ranf_half : nat -> Q := fun _ => (1 # 2)%Q.
Definition exp_one : Q -> f64 := fun _ => Fin 1.

Definition lattice_2x2 : ndarray := mk_ndarray (2%nat, 2%nat) [3; -3; -3; -3].

Definition lattice_2x3 : ndarray :=
  mk_ndarray (2%nat, 3%nat) [1; -1; 1; -1; 1; 1].

Definition ones_4x4 : ndarray := mk_ndarray (4%nat, 4%nat) (replicate 16 1).


(** *** Vocabulary of the further properties *)

(** A computation that leaves the whole state as it found it. *)
Definition readonly {A} (m : Py A) : Prop := forall w, (m w).2 = w.

(** A computation that keeps the observation [f] of the state. *)
Definition preserves {A X} (f : world -> X) (m : Py A) : Prop :=
  forall w, f (m w).2 = f w.

(** A computation that takes at most [n] samples, and gives none back. *)
Definition draws_at_most {A} (n : nat) (m : Py A) : Prop :=
  forall w, (drawn w <= drawn (m w).2 <= drawn w + n)%nat.

(** The parameters of the instance, the temperature included. *)
Definition params (w : world) : coupling * Z * scalar * scalar :=
  (J (self w), epsilon (self w), k_B (self w), T (self w)).

(** Every cell is [+m] or [-m]. *)
Definition signed (m : Z) (a : ndarray) : Prop :=
  Forall (fun x => x = m \/ x = - m) (data a).

(** The sum of the magnitudes of the cells. *)
Definition abs_total (a : ndarray) : Z := np_sum (Z.abs <$> data a).

(** [(a == 0).sum()] *)
Definition count_zero (a : ndarray) : Z :=
  Z.of_nat (length (filter (fun x => x = 0) (data a))).

(** The outcome of a computation with its value negated. *)
Definition negated (r : result Z) : result Z :=
  match r with Ok e => Ok (- e) | Raise x => Raise x end.

(** The sites of a grid of dimensions [d], row by row. *)
Definition row_major (d : nat * nat) : list (Z * Z) :=
  concat (map (fun n_i => map (fun n_j => (n_i, n_j)) (range d.2)) (range d.1)).

(** The outcome of a computation with its value wrapped to int64. *)
Definition wrapped (r : result Z) : result Z :=
  match r with Ok e => Ok (wrap64 e) | Raise x => Raise x end.

(** A lattice of two cells that both hold [2^62]. *)
Definition lattice_huge : ndarray :=
  mk_ndarray (1%nat, 2%nat) [4611686018427387904; 4611686018427387904].

(** ** Running computations: equations of the monad *)

Lemma bind_Ok {A B} (m : Py A) (f : A -> Py B) w a w' :
  m w = (Ok a, w') -> (m ≫= f) w = f a w'.
Proof. intros H. unfold mbind, Py_bind. now rewrite H. Qed.

Lemma bind_Raise {A B} (m : Py A) (f : A -> Py B) w e w' :
  m w = (Raise e, w') -> (m ≫= f) w = (Raise e, w').
Proof. intros H. unfold mbind, Py_bind. now rewrite H. Qed.

Lemma bind_gets {A B} (g : MonteCarlo -> A) (f : A -> Py B) w :
  (gets g ≫= f) w = f (g (self w)) w.
Proof. reflexivity. Qed.

Lemma bind_ret {A B} (a : A) (f : A -> Py B) w : (mret a ≫= f) w = f a w.
Proof. reflexivity. Qed.

Lemma bind_lift_Ok {A B} (a : A) (f : A -> Py B) w : (lift (Ok a) ≫= f) w = f a w.
Proof. reflexivity. Qed.

Lemma bind_lift_Raise {A B} e (f : A -> Py B) w :
  (lift (Raise e) ≫= f) w = (Raise e, w).
Proof. reflexivity. Qed.

Ltac py_step :=
  rewrite ?bind_gets, ?bind_ret, ?bind_lift_Ok, ?bind_lift_Raise.

(** ** The flip energy *)

(** Computed in [Z], [E_flip] is [-2 * (sum of J_k * (s * n_k) + eps * s)]
    for a site spin [s] and four neighbour spins, whether [J] is one number
    or an array of four, and the state is left as it was. *)
Lemma E_flip_formula (a : ndarray) (d : nat * nat) (eps : Z) (kB t : scalar)
    (k : nat) (coord : Z * Z) (s n1 n2 n3 n4 : Z) :
  (forall j : Z,
      let w := mk_world (mk_MonteCarlo a d (Jscalar j) eps kB t) k in
      E_flip coord s [n1; n2; n3; n4] w
      = (Ok (-2 * (j * (s * n1) + j * (s * n2) + j * (s * n3) + j * (s * n4)
                   + eps * s)), w))
  /\ (forall j1 j2 j3 j4 : Z,
      let w := mk_world (mk_MonteCarlo a d (Jarray [j1; j2; j3; j4]) eps kB t) k in
      E_flip coord s [n1; n2; n3; n4] w
      = (Ok (-2 * (j1 * (s * n1) + j2 * (s * n2) + j3 * (s * n3) + j4 * (s * n4)
                   + eps * s)), w)).
Proof.
  split; intros; subst w; unfold E_flip; py_step; cbn [self J epsilon np_mul].
  - py_step. unfold mret, Py_ret. do 2 f_equal.
    cbn [map]. unfold np_sum. cbn [foldr]. ring.
  - destruct (decide _) as [_|ne]; [|now exfalso; apply ne].
    py_step. unfold mret, Py_ret. do 2 f_equal.
    cbn [zip_with]. unfold np_sum. cbn [foldr]. ring.
Qed.

(** ** The acceptance decider *)

Section Decider.
Variable ranf : nat -> Q.
Variable exp_fin : Q -> f64.

Lemma flip_decider_neg (E : scalar) (w : world) :
  val E < 0 -> flip_decider ranf exp_fin E w = (Ok true, w).
Proof. intros H. unfold flip_decider. apply Z.ltb_lt in H. now rewrite H. Qed.

Lemma flip_decider_nonneg (E : scalar) (w : world) :
  0 <= val E ->
  flip_decider ranf exp_fin E w
  = (match truediv (sneg E) (smul (k_B (self w)) (T (self w))) with
     | Ok x => Ok (f64_le (Fin (ranf (drawn w))) (np_exp exp_fin x))
     | Raise e => Raise e
     end, tick w).
Proof.
  intros H. unfold flip_decider. apply Z.ltb_ge in H. rewrite H.
  rewrite (bind_Ok _ _ w (ranf (drawn w)) (tick w)) by reflexivity.
  py_step. cbn [tick self].
  destruct (truediv _ _) as [x|e]; py_step; [|reflexivity].
  now destruct (f64_le _ _).
Qed.

(** With [E < 0] the decider returns [True] and takes no sample.
    Otherwise it takes exactly one sample [u] and its outcome is that of
    [u <= exp(-E / (k_B * T))]: the truth value when the expression has
    one, the exception when evaluating it raises. *)
Lemma flip_decider_rule (E : scalar) (w : world) :
  let u := ranf (drawn w) in
  let q := truediv (sneg E) (smul (k_B (self w)) (T (self w))) in
  (val E < 0 -> flip_decider ranf exp_fin E w = (Ok true, w))
  /\ (0 <= val E -> forall x, q = Ok x ->
        flip_decider ranf exp_fin E w
        = (Ok (f64_le (Fin u) (np_exp exp_fin x)), tick w))
  /\ (0 <= val E -> forall e, q = Raise e ->
        flip_decider ranf exp_fin E w = (Raise e, tick w)).
Proof.
  intros u q; subst u q. repeat split.
  - apply flip_decider_neg.
  - intros H x Hq. rewrite flip_decider_nonneg by exact H. now rewrite Hq.
  - intros H e Hq. rewrite flip_decider_nonneg by exact H. now rewrite Hq.
Qed.

End Decider.

(** The quotient that the decider forms at zero temperature. *)
Lemma truediv_numpy_zero (e : Z) (kB t : scalar) :
  val t = 0 ->
  truediv (sneg (NpNum e)) (smul kB t)
  = Ok (if e =? 0 then NaN else if 0 <? e then NInf else PInf).
Proof.
  intros Ht. assert (Hk : val (smul kB t) = 0).
  { destruct kB, t; simpl in *; subst; lia. }
  unfold sneg, truediv. cbn [val]. unfold np_true_divide. rewrite Hk. cbn.
  destruct (Z.eqb_spec (- e) 0), (Z.eqb_spec e 0); try lia; [reflexivity|].
  destruct (Z.ltb_spec (- e) 0), (Z.ltb_spec 0 e); try lia; reflexivity.
Qed.

Lemma f64_le_NaN (u : f64) : f64_le u NaN = false.
Proof. now destruct u. Qed.

(** With [T == 0] and a flip energy 0 that is a NumPy scalar (what [E_flip]
    returns and [sweep] passes on), the quotient is [nan], [u <= exp(nan)]
    is false for every [u], and the decider returns [False] after one
    sample, raising nothing. *)
Lemma flip_decider_numpy_zero_rejects (ranf : nat -> Q) (exp_fin : Q -> f64)
    (w : world) :
  val (T (self w)) = 0 ->
  truediv (sneg (NpNum 0)) (smul (k_B (self w)) (T (self w))) = Ok NaN
  /\ (forall u, f64_le u (np_exp exp_fin NaN) = false)
  /\ flip_decider ranf exp_fin (NpNum 0) w = (Ok false, tick w).
Proof.
  intros Ht.
  assert (Hq : truediv (sneg (NpNum 0)) (smul (k_B (self w)) (T (self w)))
               = Ok NaN) by exact (truediv_numpy_zero 0 (k_B (self w)) _ Ht).
  split; [exact Hq|]. split; [intros u; apply f64_le_NaN|].
  rewrite flip_decider_nonneg by (cbn; lia). rewrite Hq.
  cbn [np_exp]. now rewrite f64_le_NaN.
Qed.

(** C7. On an instance with the default [k_B=1] and [T=0], the decider
    called with the Python number 0 takes its sample and then raises
    [ZeroDivisionError]: [-0 / (1 * 0)] is a division of Python numbers.
    Called with the NumPy scalar 0 on the same instance it returns [False]
    after one sample, as the claim says. *)
Theorem flip_decider_python_zero_raises :
  let w := mk_world (init_default cell_1x1) 0 in
  flip_decider ranf_half exp_one (PyNum 0) w = (Raise ZeroDivisionError, tick w)
  /\ flip_decider ranf_half exp_one (NpNum 0) w = (Ok false, tick w).
Proof. split; reflexivity. Qed.

(** C2. On an instance with the default [k_B=1] and [T=0], the decider
    called with a Python number [E >= 0] takes one sample and then raises
    [ZeroDivisionError] instead of returning whether [u <= exp(-E/(k_B*T))];
    this is so for every sample sequence and every such [E]. Called with a
    NumPy scalar on the same instance it returns that comparison ([False]
    for the sample 1/2 against [exp(-inf) = 0]), and with [E < 0] it
    returns [True] without a sample. *)
Theorem flip_decider_default_python_raises :
  let w := mk_world (init_default cell_1x1) 0 in
  (forall (ranf : nat -> Q) (exp_fin : Q -> f64) (e : nat),
      flip_decider ranf exp_fin (PyNum (Z.of_nat e)) w
      = (Raise ZeroDivisionError, tick w))
  /\ flip_decider ranf_half exp_one (NpNum 1) w = (Ok false, tick w)
  /\ flip_decider ranf_half exp_one (PyNum (-1)) w = (Ok true, w).
Proof.
  intros w. split; [|split; reflexivity].
  intros ranf exp_fin e. rewrite flip_decider_nonneg by (cbn; lia).
  reflexivity.
Qed.

Lemma flip_decider_rule_witness :
  let w := mk_world (init cell_1x1 (Jscalar 1) 0 (PyNum 1) (PyNum 2)) 0 in
  flip_decider ranf_half exp_one (NpNum (-8)) w = (Ok true, w)
  /\ flip_decider ranf_half exp_one (NpNum 8) w
     = (Ok (f64_le (Fin (1 # 2)) (np_exp exp_one (Fin (inject_Z (-8) / inject_Z 2)))),
        tick w).
Proof.
  intros w.
  destruct (flip_decider_rule ranf_half exp_one (NpNum (-8)) w) as (H1 & _ & _).
  destruct (flip_decider_rule ranf_half exp_one (NpNum 8) w) as (_ & H2 & _).
  split.
  - apply H1. cbn. lia.
  - apply H2; [cbn; lia | reflexivity].
Defined.

(** ** Rejected arguments *)

(** C4. A selector that is neither ['OBC'] nor ['PBC'] makes [sweep] raise
    its exception at once: the test comes before the loops, so no site is
    visited, no sample is taken and the whole state, the lattice included,
    is as before the call. *)
Theorem sweep_unknown_BC (ranf : nat -> Q) (exp_fin : Q -> f64) (BC : string)
    (w : world) :
  BC <> "OBC"%string -> BC <> "PBC"%string ->
  sweep ranf exp_fin BC w = (Raise (Exception BC_message), w).
Proof.
  intros H1 H2. unfold sweep.
  destruct (decide (BC = "OBC"%string)) as [->|_]; [done|].
  destruct (decide (BC = "PBC"%string)) as [->|_]; [done|].
  reflexivity.
Qed.

Lemma sweep_unknown_BC_witness :
  sweep ranf_half exp_one "XBC" (mk_world (init_default cell_1x1) 0)
  = (Raise (Exception BC_message), mk_world (init_default cell_1x1) 0).
Proof. apply sweep_unknown_BC; discriminate. Defined.

(** C10. [magnetization_Ns] stores [T] before it looks at [n]: when it
    raises for [n < 1] the instance already carries the new temperature,
    while the lattice, the other attributes and the generator are as
    before. *)
Theorem magnetization_Ns_stores_T_first (ranf : nat -> Q) (exp_fin : Q -> f64)
    (t : scalar) (n : Z) (BC : string) (w : world) :
  n < 1 ->
  magnetization_Ns ranf exp_fin t n BC w = (Raise (Exception n_message), with_T t w)
  /\ T (self (with_T t w)) = t
  /\ lattice (self (with_T t w)) = lattice (self w)
  /\ drawn (with_T t w) = drawn w.
Proof.
  intros Hn. split; [|done]. unfold magnetization_Ns.
  rewrite (bind_Ok _ _ w tt (with_T t w)) by reflexivity.
  apply Z.ltb_lt in Hn. now rewrite Hn.
Qed.

Lemma magnetization_Ns_stores_T_first_witness :
  magnetization_Ns ranf_half exp_one (PyNum 5) 0 "PBC"
    (mk_world (init_default cell_1x1) 0)
  = (Raise (Exception n_message),
     mk_world (init cell_1x1 (Jscalar 1) 0 (PyNum 1) (PyNum 5)) 0).
Proof.
  apply (proj1 (magnetization_Ns_stores_T_first ranf_half exp_one (PyNum 5) 0
                  "PBC" (mk_world (init_default cell_1x1) 0) ltac:(lia))).
Defined.

(** ** The summary of a lattice *)

(** ** What no method changes *)

Lemma stable_ret {A} (a : A) : stable (mret a : Py A).
Proof. intros w; reflexivity. Qed.

Lemma stable_raise {A} (e : exn) : stable (raise e : Py A).
Proof. intros w; reflexivity. Qed.

Lemma stable_lift {A} (r : result A) : stable (lift r).
Proof. intros w; reflexivity. Qed.

Lemma stable_gets {A} (g : MonteCarlo -> A) : stable (gets g).
Proof. intros w; reflexivity. Qed.

Lemma stable_set_T (t : scalar) : stable (set_T t).
Proof. intros w; reflexivity. Qed.

Lemma stable_bind {A B} (m : Py A) (f : A -> Py B) :
  stable m -> (forall a, stable (f a)) -> stable (m ≫= f).
Proof.
  intros Hm Hf w. unfold mbind, Py_bind.
  specialize (Hm w). destruct (m w) as [[a|e] w1]; cbn in *.
  - now rewrite Hf.
  - exact Hm.
Qed.

Lemma stable_if {A} (b : bool) (m1 m2 : Py A) :
  stable m1 -> stable m2 -> stable (if b then m1 else m2).
Proof. now destruct b. Qed.

Lemma stable_for {A} (xs : list A) (body : A -> Py unit) :
  (forall x, stable (body x)) -> stable (for_ xs body).
Proof.
  intros Hb. induction xs as [|x xs IH]; cbn [for_].
  - apply stable_ret.
  - apply stable_bind; [apply Hb | intros _; exact IH].
Qed.

Lemma stable_for_acc {A B} (xs : list A) (body : B -> A -> Py B) (acc : B) :
  (forall b x, stable (body b x)) -> stable (for_acc xs acc body).
Proof.
  intros Hb. revert acc. induction xs as [|x xs IH]; intros acc; cbn [for_acc].
  - apply stable_ret.
  - apply stable_bind; [apply Hb | intros acc'; apply IH].
Qed.

(** A cell that is read and written back negated keeps its magnitude. *)
Lemma abs_insert_neg (l : list Z) (k : nat) (v : Z) :
  l !! k = Some v -> Z.abs <$> <[k := v * -1]> l = Z.abs <$> l.
Proof.
  intros Hk. rewrite list_fmap_insert.
  replace (Z.abs (v * -1)) with (Z.abs v) by lia.
  apply list_insert_id. now rewrite list_lookup_fmap, Hk.
Qed.

Lemma getitem_Ok (a : ndarray) (i j v : Z) :
  getitem a i j = Ok v ->
  exists k, offset a i j = Some k /\ data a !! k = Some v.
Proof.
  unfold getitem. destruct (offset a i j) as [k|]; [|discriminate].
  destruct (data a !! k) as [x|] eqn:Hx; [|discriminate].
  intros [= <-]. now exists k.
Qed.

Ltac stable_core :=
  first [ apply stable_ret | apply stable_raise | apply stable_lift
        | apply stable_gets | apply stable_set_T | apply stable_if
        | (apply stable_bind; [|intros ?]) ].

Section Stability.
Variable ranf : nat -> Q.
Variable exp_fin : Q -> f64.

Lemma stable_ranf : stable (np_random_ranf ranf).
Proof. intros w; reflexivity. Qed.

Lemma stable_lattice_get (i j : Z) : stable (lattice_get i j).
Proof. unfold lattice_get. repeat stable_core. Qed.

Lemma stable_lattice_flip (i j : Z) : stable (lattice_flip i j).
Proof.
  intros w. unfold lattice_flip. py_step.
  destruct (getitem (lattice (self w)) i j) as [v|e] eqn:Hg; py_step;
    [|reflexivity].
  apply getitem_Ok in Hg as (k & Hoff & Hk).
  unfold setitem. rewrite Hoff.
  destruct (decide (k < length (data (lattice (self w))))%nat); py_step;
    [|reflexivity].
  unfold frame, set_lattice. cbn. now rewrite abs_insert_neg.
Qed.

Lemma stable_E_flip coord s ns : stable (E_flip coord s ns).
Proof. unfold E_flip. repeat stable_core. Qed.

Lemma stable_flip_decider (E : scalar) : stable (flip_decider ranf exp_fin E).
Proof.
  unfold flip_decider. repeat first [apply stable_ranf | stable_core].
Qed.

Lemma stable_spin_neighbor_OBC (i j : Z) : stable (spin_neighbor_OBC i j).
Proof.
  unfold spin_neighbor_OBC. repeat first [apply stable_lattice_get | stable_core].
Qed.

Lemma stable_spin_neighbor_PBC (i j : Z) : stable (spin_neighbor_PBC i j).
Proof.
  unfold spin_neighbor_PBC. repeat first [apply stable_lattice_get | stable_core].
Qed.

Lemma stable_visit (sn : Z -> Z -> Py (list Z)) (i j : Z) :
  (forall i j, stable (sn i j)) -> stable (visit ranf exp_fin sn i j).
Proof.
  intros Hsn. unfold visit.
  repeat first [ apply stable_lattice_get | apply Hsn | apply stable_E_flip
               | apply stable_flip_decider | apply stable_lattice_flip
               | stable_core ].
Qed.

Lemma stable_scan (sn : Z -> Z -> Py (list Z)) :
  (forall i j, stable (sn i j)) -> stable (scan ranf exp_fin sn).
Proof.
  intros Hsn. unfold scan.
  apply stable_bind; [apply stable_gets | intros d0].
  apply stable_for; intros n_i.
  apply stable_bind; [apply stable_gets | intros d1].
  apply stable_for; intros n_j. now apply stable_visit.
Qed.

Lemma stable_sweep (BC : string) : stable (sweep ranf exp_fin BC).
Proof.
  unfold sweep. repeat case_decide.
  - apply stable_scan, stable_spin_neighbor_OBC.
  - apply stable_scan, stable_spin_neighbor_PBC.
  - apply stable_raise.
Qed.

Lemma stable_summary : stable summary.
Proof. unfold summary. repeat stable_core. Qed.

Lemma stable_magnetization_Ns (t : scalar) (n : Z) (BC : string) :
  stable (magnetization_Ns ranf exp_fin t n BC).
Proof.
  unfold magnetization_Ns. apply stable_bind; [apply stable_set_T | intros _].
  destruct (n <? 1); [apply stable_raise|].
  apply stable_bind; [|intros; apply stable_lift].
  apply stable_for_acc; intros M _.
  apply stable_bind; [apply stable_sweep | intros _].
  apply stable_bind; [apply stable_summary | intros; apply stable_ret].
Qed.

End Stability.

(** C9. Whatever the selector and however it ends, [sweep] leaves the
    magnitude of every cell as it was: every cell holds its old value or the
    negation of it, the only write being [lattice[i, j] *= -1]. The shape of
    the lattice and the attribute [dimen] are the same after [sweep], after
    [magnetization_Ns] and after [summary]. *)
Theorem sweep_keeps_magnitudes (ranf : nat -> Q) (exp_fin : Q -> f64)
    (BC : string) (w : world) :
  let w' := (sweep ranf exp_fin BC w).2 in
  Z.abs <$> data (lattice (self w')) = Z.abs <$> data (lattice (self w))
  /\ (forall k v, data (lattice (self w)) !! k = Some v ->
        data (lattice (self w')) !! k = Some v
        \/ data (lattice (self w')) !! k = Some (v * -1))
  /\ (forall i j w0 w1, lattice_flip i j w0 = (Ok tt, w1) ->
        exists k v, offset (lattice (self w0)) i j = Some k
          /\ data (lattice (self w0)) !! k = Some v
          /\ data (lattice (self w1)) = <[k := v * -1]> (data (lattice (self w0))))
  /\ (shape (lattice (self w')) = shape (lattice (self w))
      /\ dimen (self w') = dimen (self w))
  /\ (forall t n,
        let w2 := (magnetization_Ns ranf exp_fin t n BC w).2 in
        shape (lattice (self w2)) = shape (lattice (self w))
        /\ dimen (self w2) = dimen (self w))
  /\ (let w3 := (summary w).2 in
      shape (lattice (self w3)) = shape (lattice (self w))
      /\ dimen (self w3) = dimen (self w)).
Proof.
  intros w'. subst w'.
  pose proof (stable_sweep ranf exp_fin BC w) as Hs.
  unfold frame in Hs. injection Hs as Hd Hsh Habs _ _ _.
  split; [exact Habs|]. split; [|split; [|split; [now split|split]]].
  - intros k v Hk.
    assert (Ha : (Z.abs <$> data (lattice (self (sweep ranf exp_fin BC w).2))) !! k
                 = Some (Z.abs v)) by now rewrite Habs, list_lookup_fmap, Hk.
    rewrite list_lookup_fmap in Ha.
    destruct (data (lattice (self (sweep ranf exp_fin BC w).2)) !! k) as [v'|];
      [|discriminate].
    injection Ha as Ha.
    destruct (Z.eq_dec v' v) as [->|]; [now left | right; f_equal; lia].
  - intros i j w0 w1. unfold lattice_flip. py_step.
    destruct (getitem (lattice (self w0)) i j) as [v|e] eqn:Hg; py_step;
      [|discriminate].
    apply getitem_Ok in Hg as (k & Hoff & Hk).
    unfold setitem. rewrite Hoff.
    destruct (decide (k < length (data (lattice (self w0))))%nat); py_step;
      [|discriminate].
    intros [= <-]. now exists k, v.
  - intros t n w2. subst w2.
    pose proof (stable_magnetization_Ns ranf exp_fin t n BC w) as Hm.
    unfold frame in Hm. now injection Hm as -> -> _ _ _ _.
  - now split.
Qed.

Lemma sweep_keeps_magnitudes_witness :
  data (lattice (self (sweep ranf_half exp_one "PBC"
                         (mk_world (init_default lattice_2x2) 0)).2)) !! 0%nat
  = Some 3
  \/ data (lattice (self (sweep ranf_half exp_one "PBC"
                            (mk_world (init_default lattice_2x2) 0)).2)) !! 0%nat
     = Some (3 * -1).
Proof.
  apply (proj1 (proj2 (sweep_keeps_magnitudes ranf_half exp_one "PBC"
                         (mk_world (init_default lattice_2x2) 0)))).
  reflexivity.
Defined.

(** ** Reading cells *)

Lemma norm_index_nonneg (n : nat) (i : Z) :
  0 <= i < Z.of_nat n -> norm_index n i = Some (Z.to_nat i).
Proof.
  intros H. unfold norm_index.
  destruct (Z.leb_spec 0 i), (Z.ltb_spec i (Z.of_nat n)); try lia. reflexivity.
Qed.

Lemma norm_index_minus_one (n : nat) :
  (0 < n)%nat -> norm_index n (-1) = Some (n - 1)%nat.
Proof.
  intros H. unfold norm_index. cbn [Z.leb Z.compare andb].
  destruct (Z.leb_spec (- Z.of_nat n) (-1)); [|lia]. cbn.
  f_equal. lia.
Qed.

Lemma cell_wf (a : ndarray) (r c : nat) :
  wf_ndarray a -> (r < (shape a).1)%nat -> (c < (shape a).2)%nat ->
  exists v, cell a r c = Some v.
Proof.
  intros Hwf Hr Hc. unfold cell. rewrite decide_True by done.
  apply lookup_lt_is_Some. unfold wf_ndarray in Hwf. rewrite Hwf. nia.
Qed.

Lemma lattice_get_cell (w : world) (i j : Z) (r c : nat) :
  wf_world w ->
  norm_index (shape (lattice (self w))).1 i = Some r ->
  norm_index (shape (lattice (self w))).2 j = Some c ->
  (r < (shape (lattice (self w))).1)%nat ->
  (c < (shape (lattice (self w))).2)%nat ->
  exists v, lattice_get i j w = (Ok v, w) /\ cell (lattice (self w)) r c = Some v.
Proof.
  intros [_ Hwf] Hi Hj Hr Hc.
  destruct (cell_wf _ r c Hwf Hr Hc) as [v Hv]. exists v. split; [|exact Hv].
  unfold lattice_get. py_step. unfold getitem, offset. rewrite Hi, Hj.
  unfold cell in Hv. rewrite decide_True in Hv by done. now rewrite Hv.
Qed.

Lemma lattice_get_nat (w : world) (r c : nat) :
  wf_world w ->
  (r < (shape (lattice (self w))).1)%nat ->
  (c < (shape (lattice (self w))).2)%nat ->
  exists v, lattice_get (Z.of_nat r) (Z.of_nat c) w = (Ok v, w)
            /\ cell (lattice (self w)) r c = Some v.
Proof.
  intros Hw Hr Hc. apply lattice_get_cell; try assumption.
  - rewrite norm_index_nonneg by lia. f_equal. lia.
  - rewrite norm_index_nonneg by lia. f_equal. lia.
Qed.

(** ** Neighbours under the periodic policy *)

Section Neighbours.
Variable w : world.
Hypothesis Hw : wf_world w.
Variables r c : nat.
Hypothesis Hr : (r < (shape (lattice (self w))).1)%nat.
Hypothesis Hc : (c < (shape (lattice (self w))).2)%nat.

Let a := lattice (self w).
Let rows := (shape (lattice (self w))).1.
Let cols := (shape (lattice (self w))).2.

Lemma norm_index_pred (n k : nat) :
  (k < n)%nat ->
  norm_index n (Z.of_nat k - 1) = Some (if (k =? 0)%nat then n - 1 else k - 1)%nat.
Proof.
  intros Hk. destruct (Nat.eqb_spec k 0) as [->|Hne].
  - now apply norm_index_minus_one.
  - rewrite norm_index_nonneg by lia. f_equal. lia.
Qed.

Lemma read_left :
  exists v, lattice_get (Z.of_nat r) (Z.of_nat c - 1) w = (Ok v, w)
    /\ cell a r (if (c =? 0)%nat then cols - 1 else c - 1)%nat = Some v.
Proof.
  apply lattice_get_cell; try assumption.
  - rewrite norm_index_nonneg by lia. f_equal. lia.
  - now apply norm_index_pred.
  - fold cols. destruct (c =? 0)%nat; lia.
Qed.

Lemma read_up :
  exists v, lattice_get (Z.of_nat r - 1) (Z.of_nat c) w = (Ok v, w)
    /\ cell a (if (r =? 0)%nat then rows - 1 else r - 1)%nat c = Some v.
Proof.
  apply lattice_get_cell; try assumption.
  - now apply norm_index_pred.
  - rewrite norm_index_nonneg by lia. f_equal. lia.
  - fold rows. destruct (r =? 0)%nat; lia.
Qed.

Lemma read_right :
  exists v,
    (if Z.of_nat c =? Z.of_nat (dimen (self w)).2 - 1
     then lattice_get (Z.of_nat r) 0
     else lattice_get (Z.of_nat r) (Z.of_nat c + 1)) w = (Ok v, w)
    /\ cell a r (if (c =? cols - 1)%nat then 0 else c + 1)%nat = Some v.
Proof.
  destruct Hw as [Hd _]. rewrite Hd. fold cols.
  destruct (Z.eqb_spec (Z.of_nat c) (Z.of_nat cols - 1)) as [He|He],
           (Nat.eqb_spec c (cols - 1)) as [Hn|Hn]; try lia.
  - apply (lattice_get_nat w r 0%nat); try assumption. fold cols. lia.
  - replace (Z.of_nat c + 1) with (Z.of_nat (c + 1)) by lia.
    apply lattice_get_nat; try assumption. fold cols. lia.
Qed.

Lemma read_down :
  exists v,
    (if Z.of_nat r =? Z.of_nat (dimen (self w)).1 - 1
     then lattice_get 0 (Z.of_nat c)
     else lattice_get (Z.of_nat r + 1) (Z.of_nat c)) w = (Ok v, w)
    /\ cell a (if (r =? rows - 1)%nat then 0 else r + 1)%nat c = Some v.
Proof.
  destruct Hw as [Hd _]. rewrite Hd. fold rows.
  destruct (Z.eqb_spec (Z.of_nat r) (Z.of_nat rows - 1)) as [He|He],
           (Nat.eqb_spec r (rows - 1)) as [Hn|Hn]; try lia.
  - apply (lattice_get_nat w 0%nat c); try assumption. fold rows. lia.
  - replace (Z.of_nat r + 1) with (Z.of_nat (r + 1)) by lia.
    apply lattice_get_nat; try assumption. fold rows. lia.
Qed.

Lemma spin_neighbor_PBC_cells :
  exists l rt u d,
    spin_neighbor_PBC (Z.of_nat r) (Z.of_nat c) w = (Ok [l; rt; u; d], w)
    /\ cell a r (if (c =? 0)%nat then cols - 1 else c - 1)%nat = Some l
    /\ cell a r (if (c =? cols - 1)%nat then 0 else c + 1)%nat = Some rt
    /\ cell a (if (r =? 0)%nat then rows - 1 else r - 1)%nat c = Some u
    /\ cell a (if (r =? rows - 1)%nat then 0 else r + 1)%nat c = Some d.
Proof.
  destruct read_left as (l & Hl & Cl), read_right as (rt & Hrt & Crt),
           read_up as (u & Hu & Cu), read_down as (d & Hd & Cd).
  exists l, rt, u, d. repeat split; try assumption.
  unfold spin_neighbor_PBC. py_step.
  rewrite (bind_Ok _ _ _ _ _ Hl), (bind_Ok _ _ _ _ _ Hrt),
          (bind_Ok _ _ _ _ _ Hu), (bind_Ok _ _ _ _ _ Hd).
  reflexivity.
Qed.

End Neighbours.

(** C6. Under ['PBC'] the neighbours of a site are read around the edges:
    at column 0 the left neighbour is the cell in the last column of the
    same row, at row 0 the up neighbour is the cell in the last row of the
    same column, at the last column the right neighbour is the cell in
    column 0 and at the last row the down neighbour is the cell in row 0;
    elsewhere they are the adjacent cells. All four reads succeed, at
    coordinates inside the grid, and this is the neighbour set that
    [sweep] uses for ['PBC']. *)
Theorem PBC_neighbours_wrap (ranf : nat -> Q) (exp_fin : Q -> f64) (w : world)
    (r c : nat) :
  wf_world w ->
  (r < (shape (lattice (self w))).1)%nat ->
  (c < (shape (lattice (self w))).2)%nat ->
  let a := lattice (self w) in
  let rows := (shape a).1 in
  let cols := (shape a).2 in
  sweep ranf exp_fin "PBC" = scan ranf exp_fin spin_neighbor_PBC
  /\ exists l rt u d,
    spin_neighbor_PBC (Z.of_nat r) (Z.of_nat c) w = (Ok [l; rt; u; d], w)
    /\ cell a r (if (c =? 0)%nat then cols - 1 else c - 1)%nat = Some l
    /\ cell a r (if (c =? cols - 1)%nat then 0 else c + 1)%nat = Some rt
    /\ cell a (if (r =? 0)%nat then rows - 1 else r - 1)%nat c = Some u
    /\ cell a (if (r =? rows - 1)%nat then 0 else r + 1)%nat c = Some d.
Proof.
  intros Hw Hr Hc a rows cols. split; [reflexivity|].
  now apply spin_neighbor_PBC_cells.
Qed.

Lemma PBC_neighbours_wrap_witness :
  spin_neighbor_PBC 0 0 (mk_world (init_default lattice_2x3) 0)
  = (Ok [1; -1; -1; -1], mk_world (init_default lattice_2x3) 0).
Proof.
  destruct (PBC_neighbours_wrap ranf_half exp_one
              (mk_world (init_default lattice_2x3) 0) 0 0)
    as (_ & l & rt & u & d & H & Cl & Crt & Cu & Cd).
  - split; reflexivity.
  - cbn; lia.
  - cbn; lia.
  - cbv in Cl, Crt, Cu, Cd.
    injection Cl as <-. injection Crt as <-. injection Cu as <-.
    injection Cd as <-. exact H.
Defined.

(** ** Sweeps that run to their end *)

Lemma ready_frame (w w' : world) : frame w' = frame w -> ready w -> ready w'.
Proof.
  unfold frame. intros [= Hd Hs Ha HJ _ _] [[Hdim Hwf] Hb].
  repeat split.
  - now rewrite Hd, Hs.
  - unfold wf_ndarray in *. rewrite Hs, <- Hwf.
    rewrite <- (length_fmap Z.abs), Ha. apply length_fmap.
  - now rewrite HJ.
Qed.

Lemma np_mul_4 (j : coupling) (n1 n2 n3 n4 : Z) :
  broadcasts_4 j -> exists v, np_mul j [n1; n2; n3; n4] = Ok v.
Proof.
  destruct j as [j|js]; cbn [broadcasts_4 np_mul]; [eauto|].
  intros [H|H].
  - rewrite decide_True by exact H. eauto.
  - rewrite decide_False by (rewrite H; cbn; lia).
    destruct js as [|j [|? ?]]; try discriminate. eauto.
Qed.

Lemma E_flip_returns (coord : Z * Z) (s n1 n2 n3 n4 : Z) (w : world) :
  broadcasts_4 (J (self w)) ->
  exists e, E_flip coord s [n1; n2; n3; n4] w = (Ok e, w).
Proof.
  intros Hb. destruct (np_mul_4 (J (self w)) n1 n2 n3 n4 Hb) as [jn Hjn].
  unfold E_flip. py_step. rewrite Hjn. py_step. eauto.
Qed.

Lemma range_spec (n : nat) :
  Forall (fun x => exists k, x = Z.of_nat k /\ (k < n)%nat) (range n).
Proof.
  unfold range. apply Forall_forall. intros x Hx.
  apply list_elem_of_In, in_map_iff in Hx as (k & <- & Hk).
  apply in_seq in Hk. exists k. split; [reflexivity | lia].
Qed.

(** A loop whose body returns on every element, from every state of [P],
    returns, in a state of [P]. *)
Lemma for_returns {A} (P : world -> Prop) (Q : A -> Prop) (xs : list A)
    (body : A -> Py unit) (w : world) :
  (forall x w, Q x -> P w -> exists w', body x w = (Ok tt, w') /\ P w') ->
  Forall Q xs -> P w ->
  exists w', for_ xs body w = (Ok tt, w') /\ P w'.
Proof.
  intros Hb Hxs. revert w. induction Hxs as [|x xs Hx _ IH]; intros w Hw.
  - exists w. now split.
  - destruct (Hb x w Hx Hw) as (w1 & H1 & P1).
    destruct (IH w1 P1) as (w2 & H2 & P2).
    exists w2. split; [|exact P2].
    cbn [for_]. now rewrite (bind_Ok _ _ _ _ _ H1).
Qed.

Section Returns.
Variable ranf : nat -> Q.
Variable exp_fin : Q -> f64.

(** On a NumPy flip energy the decider always returns: the division is
    NumPy's, which raises nothing. *)
Lemma flip_decider_numpy_returns (e : Z) (w : world) :
  exists b w', flip_decider ranf exp_fin (NpNum e) w = (Ok b, w')
               /\ self w' = self w.
Proof.
  destruct (Z.lt_ge_cases e 0) as [H|H].
  - exists true, w. split; [|reflexivity]. now apply flip_decider_neg.
  - rewrite flip_decider_nonneg by exact H.
    assert (Hq : exists x, truediv (sneg (NpNum e))
                   (smul (k_B (self w)) (T (self w))) = Ok x)
      by (cbn [sneg truediv]; eauto).
    destruct Hq as [x ->]. eauto.
Qed.

Lemma lattice_flip_returns (w : world) (r c : nat) :
  wf_world w ->
  (r < (shape (lattice (self w))).1)%nat ->
  (c < (shape (lattice (self w))).2)%nat ->
  exists w', lattice_flip (Z.of_nat r) (Z.of_nat c) w = (Ok tt, w').
Proof.
  intros Hw Hr Hc.
  destruct (lattice_get_nat w r c Hw Hr Hc) as (v & Hv & _).
  unfold lattice_get in Hv. rewrite bind_gets in Hv. injection Hv as Hv.
  unfold lattice_flip. py_step. rewrite Hv. py_step.
  apply getitem_Ok in Hv as (k & Hoff & Hk).
  unfold setitem. rewrite Hoff.
  rewrite decide_True by (eapply lookup_lt_Some; exact Hk).
  py_step. eauto.
Qed.

Lemma spin_neighbor_OBC_returns (w : world) (r c : nat) :
  wf_world w ->
  (r < (shape (lattice (self w))).1)%nat ->
  (c < (shape (lattice (self w))).2)%nat ->
  exists l rt u d,
    spin_neighbor_OBC (Z.of_nat r) (Z.of_nat c) w = (Ok [l; rt; u; d], w).
Proof.
  intros Hw Hr Hc. pose proof Hw as [Hd _].
  assert (Hl : exists v, (if Z.of_nat c =? 0 then mret 0
                          else lattice_get (Z.of_nat r) (Z.of_nat c - 1)) w
                         = (Ok v, w)).
  { destruct (Z.eqb_spec (Z.of_nat c) 0); [now exists 0|].
    replace (Z.of_nat c - 1) with (Z.of_nat (c - 1)) by lia.
    destruct (lattice_get_nat w r (c - 1) Hw Hr) as (v & Hv & _); [lia|eauto]. }
  assert (Hrt : exists v, (if Z.of_nat c =? Z.of_nat (dimen (self w)).2 - 1
                           then mret 0
                           else lattice_get (Z.of_nat r) (Z.of_nat c + 1)) w
                          = (Ok v, w)).
  { rewrite Hd. destruct (Z.eqb_spec (Z.of_nat c)
      (Z.of_nat (shape (lattice (self w))).2 - 1)); [now exists 0|].
    replace (Z.of_nat c + 1) with (Z.of_nat (c + 1)) by lia.
    destruct (lattice_get_nat w r (c + 1) Hw Hr) as (v & Hv & _); [lia|eauto]. }
  assert (Hu : exists v, (if Z.of_nat r =? 0 then mret 0
                          else lattice_get (Z.of_nat r - 1) (Z.of_nat c)) w
                         = (Ok v, w)).
  { destruct (Z.eqb_spec (Z.of_nat r) 0); [now exists 0|].
    replace (Z.of_nat r - 1) with (Z.of_nat (r - 1)) by lia.
    destruct (lattice_get_nat w (r - 1) c Hw) as (v & Hv & _); [lia|lia|eauto]. }
  assert (Hdn : exists v, (if Z.of_nat r =? Z.of_nat (dimen (self w)).1 - 1
                           then mret 0
                           else lattice_get (Z.of_nat r + 1) (Z.of_nat c)) w
                          = (Ok v, w)).
  { rewrite Hd. destruct (Z.eqb_spec (Z.of_nat r)
      (Z.of_nat (shape (lattice (self w))).1 - 1)); [now exists 0|].
    replace (Z.of_nat r + 1) with (Z.of_nat (r + 1)) by lia.
    destruct (lattice_get_nat w (r + 1) c Hw) as (v & Hv & _); [lia|lia|eauto]. }
  destruct Hl as [l Hl], Hrt as [rt Hrt], Hu as [u Hu], Hdn as [d Hdn].
  exists l, rt, u, d. unfold spin_neighbor_OBC. py_step.
  rewrite (bind_Ok _ _ _ _ _ Hl), (bind_Ok _ _ _ _ _ Hrt),
          (bind_Ok _ _ _ _ _ Hu), (bind_Ok _ _ _ _ _ Hdn).
  reflexivity.
Qed.

Lemma spin_neighbor_PBC_returns (w : world) (r c : nat) :
  wf_world w ->
  (r < (shape (lattice (self w))).1)%nat ->
  (c < (shape (lattice (self w))).2)%nat ->
  exists l rt u d,
    spin_neighbor_PBC (Z.of_nat r) (Z.of_nat c) w = (Ok [l; rt; u; d], w).
Proof.
  intros Hw Hr Hc.
  destruct (spin_neighbor_PBC_cells w Hw r c Hr Hc) as (l & rt & u & d & H & _).
  eauto.
Qed.

Lemma visit_returns (sn : Z -> Z -> Py (list Z)) (w : world) (r c : nat) :
  collects sn -> ready w ->
  (r < (shape (lattice (self w))).1)%nat ->
  (c < (shape (lattice (self w))).2)%nat ->
  exists w', visit ranf exp_fin sn (Z.of_nat r) (Z.of_nat c) w = (Ok tt, w')
             /\ frame w' = frame w.
Proof.
  intros [Hst Hsn] [Hw Hb] Hr Hc.
  assert (Hfr : frame (visit ranf exp_fin sn (Z.of_nat r) (Z.of_nat c) w).2
                = frame w) by now apply stable_visit.
  enough (exists w', visit ranf exp_fin sn (Z.of_nat r) (Z.of_nat c) w = (Ok tt, w'))
    as [w' Hv] by (exists w'; split; [exact Hv | now rewrite Hv in Hfr]).
  clear Hfr.
  destruct (lattice_get_nat w r c Hw Hr Hc) as (s & Hs & _).
  destruct (Hsn w r c Hw Hr Hc) as (l & rt & u & d & Hns).
  destruct (E_flip_returns (Z.of_nat r, Z.of_nat c) s l rt u d w Hb) as [e He].
  unfold visit.
  rewrite (bind_Ok _ _ _ _ _ Hs), (bind_Ok _ _ _ _ _ Hns),
          (bind_Ok _ _ _ _ _ He).
  destruct (flip_decider_numpy_returns e w) as (b & w1 & Hdec & Hself).
  rewrite (bind_Ok _ _ _ _ _ Hdec).
  destruct b; [|eauto].
  apply lattice_flip_returns.
  - unfold wf_world. now rewrite Hself.
  - now rewrite Hself.
  - now rewrite Hself.
Qed.

Lemma scan_returns (sn : Z -> Z -> Py (list Z)) (w : world) :
  collects sn -> ready w ->
  exists w', scan ranf exp_fin sn w = (Ok tt, w') /\ frame w' = frame w.
Proof.
  intros Hsn Hw. unfold scan. py_step.
  pose proof Hw as [[Hd _] _].
  apply (for_returns (fun w' => frame w' = frame w)
           (fun x => exists k, x = Z.of_nat k
                       /\ (k < (dimen (self w)).1)%nat));
    [|apply range_spec|reflexivity].
  intros n_i w1 (r & -> & Hr) Hf1. py_step.
  assert (Hd1 : dimen (self w1) = dimen (self w))
    by (unfold frame in Hf1; now injection Hf1).
  assert (Hs1 : shape (lattice (self w1)) = shape (lattice (self w)))
    by (unfold frame in Hf1; now injection Hf1).
  apply (for_returns (fun w' => frame w' = frame w)
           (fun x => exists k, x = Z.of_nat k
                       /\ (k < (dimen (self w1)).2)%nat));
    [|apply range_spec|exact Hf1].
  intros n_j w2 (c & -> & Hc) Hf2.
  assert (Hs2 : shape (lattice (self w2)) = shape (lattice (self w)))
    by (unfold frame in Hf2; now injection Hf2).
  destruct (visit_returns sn w2 r c Hsn) as (w3 & Hv & Hf3).
  - now apply (ready_frame w).
  - rewrite Hs2, <- Hd. exact Hr.
  - rewrite Hs2, <- Hd, <- Hd1. exact Hc.
  - exists w3. split; [exact Hv | now rewrite Hf3].
Qed.

Lemma sweep_returns (BC : string) (w : world) :
  BC = "OBC"%string \/ BC = "PBC"%string -> ready w ->
  exists w', sweep ranf exp_fin BC w = (Ok tt, w') /\ frame w' = frame w.
Proof.
  intros [-> | ->] Hw.
  - apply scan_returns; [|exact Hw]. split.
    + apply stable_spin_neighbor_OBC.
    + apply spin_neighbor_OBC_returns.
  - apply scan_returns; [|exact Hw]. split.
    + apply stable_spin_neighbor_PBC.
    + apply spin_neighbor_PBC_returns.
Qed.

End Returns.

(** ** The mean over [n] sweeps *)

Section Aggregator.
Variable ranf : nat -> Q.
Variable exp_fin : Q -> f64.
Variable BC : string.

Lemma length_totals (k : nat) (w : world) : length (totals ranf exp_fin BC k w) = k.
Proof. revert w. induction k as [|k IH]; intros w; cbn; [|rewrite IH]; done. Qed.



Lemma summary_eq (w : world) :
  summary w = (Ok (count_pos (lattice (self w)), count_neg (lattice (self w)),
                   total (lattice (self w))), w).
Proof. reflexivity. Qed.

Lemma sweeps_accumulate (xs : list Z) (acc : Z) (w : world) :
  BC = "OBC"%string \/ BC = "PBC"%string -> ready w ->
  for_acc xs acc (fun (M : Z) (_ : Z) =>
      sweep ranf exp_fin BC ≫= fun _ => s ← summary; mret (M + s.2)) w
  = (Ok (acc + np_sum (totals ranf exp_fin BC (length xs) w)), after_sweeps ranf exp_fin BC (length xs) w).
Proof.
  intros HBC. revert acc w. induction xs as [|x xs IH]; intros acc w Hw.
  - cbn. unfold mret, Py_ret. do 2 f_equal. lia.
  - destruct (sweep_returns ranf exp_fin BC w HBC Hw) as (w1 & H1 & Hf).
    assert (Hstep : sweep_step ranf exp_fin BC w = w1) by (unfold sweep_step; now rewrite H1).
    cbn [for_acc length after_sweeps totals]. rewrite Hstep.
    erewrite bind_Ok; cycle 1.
    { rewrite (bind_Ok _ _ _ _ _ H1). rewrite (bind_Ok _ _ _ _ _ (summary_eq w1)).
      reflexivity. }
    rewrite IH by now apply (ready_frame w).
    do 2 f_equal. unfold np_sum. cbn [foldr snd]. lia.
Qed.


End Aggregator.


(** ** The aligned 4x4 lattice at zero temperature *)


Section Aligned.
Variable ranf : nat -> Q.
Variable exp_fin : Q -> f64.
Hypothesis ranf_pos : forall n, (0 < ranf n)%Q.



Variable j : Z.
Variables kB t : scalar.





End Aligned.



(** ** Machine integers *)

Lemma wrap64_range (z : Z) : in_int64 (wrap64 z).
Proof.
  unfold in_int64, wrap64.
  pose proof (Z.mod_pos_bound (z + 9223372036854775808) 18446744073709551616).
  lia.
Qed.

Lemma wrap64_id (z : Z) : in_int64 z -> wrap64 z = z.
Proof. unfold in_int64, wrap64. intros H. rewrite Z.mod_small; lia. Qed.

Lemma wrap64_cong (x y k : Z) :
  x = y + k * 18446744073709551616 -> wrap64 x = wrap64 y.
Proof.
  intros ->. unfold wrap64. f_equal.
  replace (y + k * 18446744073709551616 + 9223372036854775808)
    with (y + 9223372036854775808 + k * 18446744073709551616) by ring.
  apply Z_mod_plus_full.
Qed.

Lemma wrap64_rep (x : Z) : exists k, wrap64 x = x + k * 18446744073709551616.
Proof.
  exists (- ((x + 9223372036854775808) / 18446744073709551616)).
  unfold wrap64. rewrite Z.mod_eq by lia. ring.
Qed.

Lemma wrap64_idem (x : Z) : wrap64 (wrap64 x) = wrap64 x.
Proof. apply wrap64_id, wrap64_range. Qed.

Lemma wrap64_add_l (a b : Z) : wrap64 (wrap64 a + b) = wrap64 (a + b).
Proof. destruct (wrap64_rep a) as [k ->]. apply (wrap64_cong _ _ k). ring. Qed.

Lemma wrap64_add_r (a b : Z) : wrap64 (a + wrap64 b) = wrap64 (a + b).
Proof. destruct (wrap64_rep b) as [k ->]. apply (wrap64_cong _ _ k). ring. Qed.

Lemma wrap64_mul_l (a b : Z) : wrap64 (wrap64 a * b) = wrap64 (a * b).
Proof.
  destruct (wrap64_rep a) as [k ->]. apply (wrap64_cong _ _ (k * b)). ring.
Qed.

Lemma wrap64_mul_r (a b : Z) : wrap64 (a * wrap64 b) = wrap64 (a * b).
Proof.
  destruct (wrap64_rep b) as [k ->]. apply (wrap64_cong _ _ (a * k)). ring.
Qed.

(** The int64 sum is the sum in [Z], wrapped. *)
Lemma fold_add64 (v : list Z) (acc : Z) :
  fold_left add64 v (wrap64 acc) = wrap64 (acc + np_sum v).
Proof.
  unfold np_sum. revert acc. induction v as [|x v IH]; intros acc;
    cbn [fold_left foldr].
  - f_equal. lia.
  - unfold add64 at 2. rewrite wrap64_add_l, IH. f_equal. lia.
Qed.

Lemma np_sum64_wrap (v : list Z) : np_sum64 v = wrap64 (np_sum v).
Proof. unfold np_sum64. exact (fold_add64 v 0). Qed.

Lemma np_sum_map_wrap (l : list Z) :
  wrap64 (np_sum (map wrap64 l)) = wrap64 (np_sum l).
Proof.
  unfold np_sum. induction l as [|x l IH]; [reflexivity|].
  cbn [map foldr]. rewrite wrap64_add_l, <- wrap64_add_r, IH.
  apply wrap64_add_r.
Qed.

Lemma zip_with_mul64 (js v : list Z) :
  zip_with mul64 js v = map wrap64 (zip_with Z.mul js v).
Proof.
  revert v. induction js as [|j js IH]; intros [|x v]; cbn; try reflexivity.
  now rewrite IH.
Qed.

Lemma np_mul64_wrap (j : coupling) (v : list Z) :
  np_mul64 j v = match np_mul j v with
                 | Ok l => Ok (map wrap64 l)
                 | Raise e => Raise e
                 end.
Proof.
  destruct j as [j|js]; cbn [np_mul64 np_mul].
  - now rewrite map_map.
  - destruct (decide (length js = length v)); [now rewrite zip_with_mul64|].
    destruct js as [|c [|c' js]], v as [|x [|x' v]]; try reflexivity;
      now rewrite map_map.
Qed.

(** The int64 total of a lattice is its total in [Z], wrapped. *)
Lemma total64_wrap (a : ndarray) : total64 a = wrap64 (total a).
Proof. apply np_sum64_wrap. Qed.

(** On int64 operands [E_flip] returns what it returns in [Z], wrapped; it
    raises in the same cases. *)
Lemma E_flip_int64_wrap (coord : Z * Z) (s : Z) (ns : list Z) (w : world) :
  E_flip_int64 coord s ns w = (wrapped (E_flip coord s ns w).1, w).
Proof.
  unfold E_flip_int64, E_flip. py_step. rewrite np_mul64_wrap.
  destruct (np_mul (J (self w)) ns) as [l|e]; py_step; [|reflexivity].
  unfold mret, Py_ret. cbn [fst wrapped]. do 2 f_equal.
  unfold mul64, add64. rewrite np_sum64_wrap, np_sum_map_wrap.
  rewrite (wrap64_mul_r s), wrap64_add_l, wrap64_add_r.
  apply wrap64_mul_r.
Qed.

(** For spins in [{-1, 0, 1}] and a coupling and a field of magnitude at most
    [2^59], nothing overflows at a site: the int64 flip energy is the one
    computed in [Z]. *)
Lemma E_flip_int64_unit_spins (a : ndarray) (d : nat * nat) (j eps : Z)
    (kB t : scalar) (k : nat) (coord : Z * Z) (s n1 n2 n3 n4 : Z) :
  -1 <= s <= 1 -> Forall (fun x => -1 <= x <= 1) [n1; n2; n3; n4] ->
  Z.abs j <= 576460752303423488 -> Z.abs eps <= 576460752303423488 ->
  let w := mk_world (mk_MonteCarlo a d (Jscalar j) eps kB t) k in
  E_flip_int64 coord s [n1; n2; n3; n4] w = E_flip coord s [n1; n2; n3; n4] w.
Proof.
  intros Hs Hn Hj He w.
  destruct (E_flip_formula a d eps kB t k coord s n1 n2 n3 n4) as [H _].
  specialize (H j). cbn zeta in H. fold w in H.
  rewrite E_flip_int64_wrap, H. cbn [fst wrapped]. do 2 f_equal.
  apply wrap64_id. unfold in_int64.
  repeat match goal with
         | H : Forall _ (_ :: _) |- _ => inversion H; subst; clear H
         end.
  assert (s = -1 \/ s = 0 \/ s = 1) as [-> | [-> | ->]] by lia;
  assert (n1 = -1 \/ n1 = 0 \/ n1 = 1) as [-> | [-> | ->]] by lia;
  assert (n2 = -1 \/ n2 = 0 \/ n2 = 1) as [-> | [-> | ->]] by lia;
  assert (n3 = -1 \/ n3 = 0 \/ n3 = 1) as [-> | [-> | ->]] by lia;
  assert (n4 = -1 \/ n4 = 0 \/ n4 = 1) as [-> | [-> | ->]] by lia; lia.
Qed.

(** C1, as stated, fails on int64 operands: with the spin [2^62], four
    neighbours 1, [J = 1] and no field the formula gives [-2^65], and
    [E_flip] returns 0, the product [s * 4] having wrapped. *)
Lemma E_flip_int64_overflows :
  let s := 4611686018427387904 in
  let w := mk_world (init_default cell_1x1) 0 in
  E_flip_int64 (0, 0) s [1; 1; 1; 1] w = (Ok 0, w)
  /\ -2 * (1 * (s * 1) + 1 * (s * 1) + 1 * (s * 1) + 1 * (s * 1) + 0 * s)
     = -36893488147419103232
  /\ in_int64 s.
Proof. repeat split; (vm_compute; reflexivity) || (vm_compute; discriminate). Qed.

(** C1, amended. For a site spin, four neighbour spins, a coupling (one
    number or an array of four) and a field that are int64 values, [E_flip]
    returns [-2 * (sum of J_k * (s * n_k) + eps * s)] reduced modulo [2^64]
    into the int64 range, and leaves the state as it was; whenever that
    value lies in the int64 range, the neighbours being 0 or not, it is
    returned exactly, and it is also what the computation in [Z] gives. *)
Theorem E_flip_int64_formula (a : ndarray) (d : nat * nat) (eps : Z)
    (kB t : scalar) (k : nat) (coord : Z * Z) (s n1 n2 n3 n4 : Z) :
  in_int64 s -> Forall in_int64 [n1; n2; n3; n4] -> in_int64 eps ->
  (forall j : Z, in_int64 j ->
      let w := mk_world (mk_MonteCarlo a d (Jscalar j) eps kB t) k in
      let F := -2 * (j * (s * n1) + j * (s * n2) + j * (s * n3) + j * (s * n4)
                     + eps * s) in
      E_flip_int64 coord s [n1; n2; n3; n4] w = (Ok (wrap64 F), w)
      /\ (in_int64 F ->
          E_flip_int64 coord s [n1; n2; n3; n4] w = (Ok F, w)
          /\ E_flip coord s [n1; n2; n3; n4] w = (Ok F, w)))
  /\ (forall j1 j2 j3 j4 : Z, Forall in_int64 [j1; j2; j3; j4] ->
      let w := mk_world (mk_MonteCarlo a d (Jarray [j1; j2; j3; j4]) eps kB t) k in
      let F := -2 * (j1 * (s * n1) + j2 * (s * n2) + j3 * (s * n3)
                     + j4 * (s * n4) + eps * s) in
      E_flip_int64 coord s [n1; n2; n3; n4] w = (Ok (wrap64 F), w)
      /\ (in_int64 F ->
          E_flip_int64 coord s [n1; n2; n3; n4] w = (Ok F, w)
          /\ E_flip coord s [n1; n2; n3; n4] w = (Ok F, w))).
Proof.
  intros _ _ _.
  destruct (E_flip_formula a d eps kB t k coord s n1 n2 n3 n4) as [Hs Ha].
  split.
  - intros j _ w F. specialize (Hs j). cbn zeta in Hs. fold w F in Hs.
    assert (H : E_flip_int64 coord s [n1; n2; n3; n4] w = (Ok (wrap64 F), w))
      by (rewrite E_flip_int64_wrap, Hs; reflexivity).
    split; [exact H|]. intros HF. rewrite H, (wrap64_id F HF). now split.
  - intros j1 j2 j3 j4 _ w F. specialize (Ha j1 j2 j3 j4). cbn zeta in Ha.
    fold w F in Ha.
    assert (H : E_flip_int64 coord s [n1; n2; n3; n4] w = (Ok (wrap64 F), w))
      by (rewrite E_flip_int64_wrap, Ha; reflexivity).
    split; [exact H|]. intros HF. rewrite H, (wrap64_id F HF). now split.
Qed.

Lemma E_flip_int64_formula_witness :
  E_flip_int64 (0, 0) (-1) [1; 0; -1; 1]
    (mk_world (mk_MonteCarlo cell_1x1 (1%nat, 1%nat) (Jscalar 3) 2 (PyNum 1)
                 (PyNum 0)) 0)
  = (Ok 10, mk_world (mk_MonteCarlo cell_1x1 (1%nat, 1%nat) (Jscalar 3) 2
                        (PyNum 1) (PyNum 0)) 0).
Proof.
  assert (Hs : in_int64 (-1)) by (unfold in_int64; lia).
  assert (Hn : Forall in_int64 [1; 0; -1; 1])
    by (repeat (constructor; [unfold in_int64; lia|]); constructor).
  assert (He : in_int64 2) by (unfold in_int64; lia).
  assert (Hj : in_int64 3) by (unfold in_int64; lia).
  destruct (E_flip_int64_formula cell_1x1 (1%nat, 1%nat) 2 (PyNum 1) (PyNum 0)
              0%nat (0, 0) (-1) 1 0 (-1) 1 Hs Hn He) as [H _].
  destruct (H 3 Hj) as [_ HF].
  apply HF. unfold in_int64. lia.
Defined.

(** In a lattice of cells [+m] and [-m], with [m > 0], the cells counted
    positive are those equal to [m], the cells counted negative those equal
    to [-m], and the sum in [Z] is their difference times [m]. *)
Lemma signed_summary (m : Z) (l : list Z) :
  0 < m -> Forall (fun x => x = m \/ x = - m) l ->
  let p := Z.of_nat (count_occ Z.eq_dec l m) in
  let n := Z.of_nat (count_occ Z.eq_dec l (- m)) in
  Z.of_nat (length (filter (fun x => 0 < x) l)) = p
  /\ Z.of_nat (length (filter (fun x => x < 0) l)) = n
  /\ p + n = Z.of_nat (length l)
  /\ np_sum l = (p - n) * m.
Proof.
  intros Hm Hl. induction Hl as [|x l Hx _ IH]; [done|].
  cbn zeta in *. destruct IH as (IH1 & IH2 & IH3 & IH4).
  unfold np_sum in *. cbn [foldr]. rewrite IH4.
  destruct Hx as [-> | ->].
  - rewrite (filter_cons_True (fun x => 0 < x)) by lia.
    rewrite (filter_cons_False (fun x => x < 0)) by lia.
    rewrite count_occ_cons_eq by reflexivity.
    rewrite count_occ_cons_neq by lia.
    cbn [length]. repeat split; nia.
  - rewrite (filter_cons_False (fun x => 0 < x)) by lia.
    rewrite (filter_cons_True (fun x => x < 0)) by lia.
    rewrite count_occ_cons_neq by lia.
    rewrite count_occ_cons_eq by reflexivity.
    cbn [length]. repeat split; nia.
Qed.

(** C8, as stated, fails on an int64 lattice: for the two cells [2^62] the
    counts are 2 and 0 and [(2 - 0) * 2^62] is [2^63], while the total that
    [summary] returns is the wrapped sum [-2^63]. *)
Lemma summary_int64_overflows :
  let w := mk_world (init_default lattice_huge) 0 in
  summary_int64 w = (Ok (2, 0, -9223372036854775808), w)
  /\ (2 - 0) * 4611686018427387904 = 9223372036854775808
  /\ signed 4611686018427387904 lattice_huge
  /\ in_int64 4611686018427387904.
Proof.
  repeat split; try (vm_compute; reflexivity); try (vm_compute; discriminate).
  unfold signed. cbn. repeat (constructor; [now left|]). constructor.
Qed.

(** C8, amended. On an int64 lattice whose cells are all [+m] or [-m], for
    one [m > 0], [summary] returns, without changing the state, the number
    [p] of cells equal to [+m], the number [n] of cells equal to [-m], and
    the total [(p - n) * m] reduced modulo [2^64] into the int64 range;
    [p + n] is the number of cells; and whenever [(p - n) * m] lies in the
    int64 range, as it does when the number of cells times [m] is below
    [2^63], the total is [(p - n) * m] exactly, as computed in [Z]. *)
Theorem summary_int64_signed (m : Z) (w : world) :
  0 < m -> in_int64 m -> signed m (lattice (self w)) ->
  let a := lattice (self w) in
  let p := Z.of_nat (count_occ Z.eq_dec (data a) m) in
  let n := Z.of_nat (count_occ Z.eq_dec (data a) (- m)) in
  summary_int64 w = (Ok (p, n, wrap64 ((p - n) * m)), w)
  /\ p + n = Z.of_nat (size a)
  /\ (wf_ndarray a -> p + n = Z.of_nat ((shape a).1 * (shape a).2))
  /\ (in_int64 ((p - n) * m) ->
      summary_int64 w = (Ok (p, n, (p - n) * m), w)
      /\ summary w = (Ok (p, n, (p - n) * m), w))
  /\ (Z.of_nat (size a) * m < 9223372036854775808 -> in_int64 ((p - n) * m)).
Proof.
  intros Hm _ Hl a p n.
  destruct (signed_summary m _ Hm Hl) as (Hp & Hn & Hsz & Hsum).
  fold a p n in Hp, Hn, Hsz, Hsum.
  assert (H64 : summary_int64 w = (Ok (p, n, wrap64 ((p - n) * m)), w)).
  { unfold summary_int64. py_step. unfold mret, Py_ret.
    unfold count_pos, count_neg, total64. fold a.
    now rewrite Hp, Hn, np_sum64_wrap, Hsum. }
  split; [exact H64|]. split; [exact Hsz|]. split; [|split].
  - intros Hwf. unfold wf_ndarray in Hwf. fold a in Hwf. rewrite <- Hwf.
    exact Hsz.
  - intros Hr. rewrite H64, (wrap64_id _ Hr). split; [reflexivity|].
    unfold summary. py_step. unfold mret, Py_ret.
    unfold count_pos, count_neg, total. fold a. now rewrite Hp, Hn, Hsum.
  - unfold size. intros Hb. unfold in_int64.
    assert (0 <= p /\ 0 <= n) as [? ?] by (subst p n; lia). nia.
Qed.

Lemma summary_int64_signed_witness :
  summary_int64 (mk_world (init_default lattice_2x2) 0)
  = (Ok (1, 3, -6), mk_world (init_default lattice_2x2) 0)
  /\ summary (mk_world (init_default lattice_2x2) 0)
     = (Ok (1, 3, -6), mk_world (init_default lattice_2x2) 0).
Proof.
  assert (Hm : in_int64 3) by (unfold in_int64; lia).
  assert (Hs : signed 3 (lattice (self (mk_world (init_default lattice_2x2) 0))))
    by (unfold signed; cbn; repeat (constructor; [lia|]); constructor).
  destruct (summary_int64_signed 3 (mk_world (init_default lattice_2x2) 0)
              ltac:(lia) Hm Hs) as (_ & _ & _ & H & _).
  apply H. vm_compute. split; [discriminate | reflexivity].
Defined.

(** * Further properties of the methods *)

(** ** More on the flip energy *)

(** X1. Evaluated on the flipped spin [-s] with the same neighbours,
    [E_flip] gives the negated value, and fails exactly when it fails on
    [s]; this holds for every coupling and every neighbour array. *)
Theorem E_flip_flipped_spin (coord : Z * Z) (s : Z) (ns : list Z) (w : world) :
  E_flip coord (- s) ns w = (negated (E_flip coord s ns w).1, w).
Proof.
  unfold E_flip. py_step.
  destruct (np_mul (J (self w)) ns) as [jn|e]; py_step; [|reflexivity].
  unfold mret, Py_ret. cbn [fst negated]. do 2 f_equal. ring.
Qed.








(** X3. A coupling array whose length is neither 1 nor that of the
    neighbour array, against more or fewer than one neighbour, cannot be
    broadcast: [E_flip] raises [ValueError] and the state is as before. *)
Theorem E_flip_shape_mismatch (coord : Z * Z) (s : Z) (ns js : list Z)
    (w : world) :
  J (self w) = Jarray js ->
  length js <> length ns -> length js <> 1%nat -> length ns <> 1%nat ->
  E_flip coord s ns w = (Raise ValueError, w).
Proof.
  intros HJ H1 H2 H3. unfold E_flip. py_step. rewrite HJ. cbn [np_mul].
  rewrite decide_False by exact H1.
  destruct js as [|c [|c' js]], ns as [|x [|x' ns]]; cbn in *; try lia;
    now py_step.
Qed.

Lemma E_flip_shape_mismatch_witness :
  E_flip (0, 0) 1 [1; 1; 1; 1]
    (mk_world (init cell_1x1 (Jarray [1; 2; 3]) 0 (PyNum 1) (PyNum 0)) 0)
  = (Raise ValueError,
     mk_world (init cell_1x1 (Jarray [1; 2; 3]) 0 (PyNum 1) (PyNum 0)) 0).
Proof.
  apply (E_flip_shape_mismatch (0, 0) 1 [1; 1; 1; 1] [1; 2; 3]); cbn;
    [reflexivity | lia | lia | lia].
Defined.

(** X4. A coupling array of one element acts as the number it holds: for
    every spin and every neighbour array [E_flip] gives the same outcome
    with [J = [j]] as with [J = j]. *)
Theorem E_flip_singleton_coupling (a : ndarray) (d : nat * nat) (eps : Z)
    (kB t : scalar) (k : nat) (coord : Z * Z) (s j : Z) (ns : list Z) :
  (E_flip coord s ns (mk_world (mk_MonteCarlo a d (Jarray [j]) eps kB t) k)).1
  = (E_flip coord s ns (mk_world (mk_MonteCarlo a d (Jscalar j) eps kB t) k)).1.
Proof.
  assert (H : np_mul (Jarray [j]) ns = np_mul (Jscalar j) ns).
  { cbn [np_mul]. destruct (decide (length [j] = length ns)) as [Hl|Hl];
      [|reflexivity].
    destruct ns as [|x [|x' ns]]; try discriminate. reflexivity. }
  unfold E_flip. py_step. cbn [self J epsilon]. now rewrite H.
Qed.

(** ** More on the acceptance decider *)

Section DeciderEdges.
Variable ranf : nat -> Q.
Variable exp_fin : Q -> f64.

(** X5. At [T == 0] with a positive flip energy held in a NumPy scalar the
    threshold is [exp(-inf) = 0]: after one sample [u] the decider returns
    whether [u <= 0], so it rejects every sample greater than 0 and accepts
    a sample equal to 0. *)
Theorem flip_decider_frozen (e : Z) (w : world) :
  val (T (self w)) = 0 -> 0 < e ->
  flip_decider ranf exp_fin (NpNum e) w
  = (Ok (Qle_bool (ranf (drawn w)) 0), tick w)
  /\ ((0 < ranf (drawn w))%Q ->
      flip_decider ranf exp_fin (NpNum e) w = (Ok false, tick w))
  /\ ((ranf (drawn w) == 0)%Q ->
      flip_decider ranf exp_fin (NpNum e) w = (Ok true, tick w)).
Proof.
  intros Ht He.
  assert (H : flip_decider ranf exp_fin (NpNum e) w
              = (Ok (Qle_bool (ranf (drawn w)) 0), tick w)).
  { rewrite flip_decider_nonneg by (cbn; lia).
    rewrite (truediv_numpy_zero e _ _ Ht).
    destruct (Z.eqb_spec e 0); [lia|]. destruct (Z.ltb_spec 0 e); [|lia].
    reflexivity. }
  split; [exact H|]. rewrite H. split; intros Hu; do 2 f_equal.
  - destruct (Qle_bool (ranf (drawn w)) 0) eqn:Hle; [|reflexivity].
    apply Qle_bool_iff in Hle. exfalso. exact (Qlt_not_le _ _ Hu Hle).
  - apply Qle_bool_iff. rewrite Hu. apply Qle_refl.
Qed.


(** X7. Whatever the flip energy, the decider changes nothing in the
    instance and takes at most one sample; and when the flip energy is a
    NumPy scalar it returns a boolean for every [k_B] and [T], zero and
    negative temperatures included. *)
Theorem flip_decider_effects (E : scalar) (w : world) :
  self (flip_decider ranf exp_fin E w).2 = self w
  /\ (drawn w <= drawn (flip_decider ranf exp_fin E w).2 <= drawn w + 1)%nat
  /\ (forall e, E = NpNum e ->
        exists b, (flip_decider ranf exp_fin E w).1 = Ok b).
Proof.
  destruct (Z.lt_ge_cases (val E) 0) as [H|H].
  - rewrite flip_decider_neg by exact H. cbn. repeat split; try lia. eauto.
  - rewrite flip_decider_nonneg by exact H. cbn. repeat split; try lia.
    intros e ->. cbn [sneg truediv]. eauto.
Qed.

End DeciderEdges.

Lemma flip_decider_frozen_witness :
  flip_decider ranf_half exp_one (NpNum 8) (mk_world (init_default cell_1x1) 0)
  = (Ok false, mk_world (init_default cell_1x1) 1)
  /\ flip_decider (fun _ => 0%Q) exp_one (NpNum 8)
       (mk_world (init_default cell_1x1) 0)
     = (Ok true, mk_world (init_default cell_1x1) 1).
Proof.
  split.
  - apply (proj1 (proj2 (flip_decider_frozen ranf_half exp_one 8
                           (mk_world (init_default cell_1x1) 0) eq_refl
                           ltac:(lia)))).
    reflexivity.
  - apply (proj2 (proj2 (flip_decider_frozen (fun _ => 0%Q) exp_one 8
                           (mk_world (init_default cell_1x1) 0) eq_refl
                           ltac:(lia)))).
    reflexivity.
Defined.


Lemma flip_decider_effects_witness :
  exists b, (flip_decider ranf_half exp_one (NpNum 0)
               (mk_world (init_default cell_1x1) 0)).1 = Ok b.
Proof.
  apply (proj2 (proj2 (flip_decider_effects ranf_half exp_one (NpNum 0)
                         (mk_world (init_default cell_1x1) 0))) 0 eq_refl).
Defined.

(** ** Observations that computations keep *)

Lemma preserves_ret {A X} (f : world -> X) (a : A) : preserves f (mret a : Py A).
Proof. intros w; reflexivity. Qed.

Lemma preserves_raise {A X} (f : world -> X) (e : exn) :
  preserves f (raise e : Py A).
Proof. intros w; reflexivity. Qed.

Lemma preserves_lift {A X} (f : world -> X) (r : result A) : preserves f (lift r).
Proof. intros w; reflexivity. Qed.

Lemma preserves_gets {A X} (f : world -> X) (g : MonteCarlo -> A) :
  preserves f (gets g).
Proof. intros w; reflexivity. Qed.

Lemma preserves_bind {A B X} (f : world -> X) (m : Py A) (k : A -> Py B) :
  preserves f m -> (forall a, preserves f (k a)) -> preserves f (m ≫= k).
Proof.
  intros Hm Hk w. unfold mbind, Py_bind.
  specialize (Hm w). destruct (m w) as [[a|e] w1]; cbn in *.
  - now rewrite Hk.
  - exact Hm.
Qed.

Lemma preserves_if {A X} (f : world -> X) (b : bool) (m1 m2 : Py A) :
  preserves f m1 -> preserves f m2 -> preserves f (if b then m1 else m2).
Proof. now destruct b. Qed.

Lemma preserves_for {A X} (f : world -> X) (xs : list A) (body : A -> Py unit) :
  (forall x, preserves f (body x)) -> preserves f (for_ xs body).
Proof.
  intros Hb. induction xs as [|x xs IH]; cbn [for_].
  - apply preserves_ret.
  - apply preserves_bind; [apply Hb | intros _; exact IH].
Qed.

Lemma preserves_for_acc {A B X} (f : world -> X) (xs : list A)
    (body : B -> A -> Py B) (acc : B) :
  (forall b x, preserves f (body b x)) -> preserves f (for_acc xs acc body).
Proof.
  intros Hb. revert acc. induction xs as [|x xs IH]; intros acc; cbn [for_acc].
  - apply preserves_ret.
  - apply preserves_bind; [apply Hb | intros acc'; apply IH].
Qed.

Ltac preserves_core :=
  first [ apply preserves_ret | apply preserves_raise | apply preserves_lift
        | apply preserves_gets | apply preserves_if
        | (apply preserves_bind; [|intros ?]) ].

(** Reading computations: they keep every observation. *)
Lemma readonly_preserves {A X} (f : world -> X) (m : Py A) :
  readonly m -> preserves f m.
Proof. intros H w. now rewrite H. Qed.

Lemma readonly_id {A} (m : Py A) : preserves (fun w => w) m -> readonly m.
Proof. intros H w. exact (H w). Qed.

Lemma readonly_lattice_get (i j : Z) : readonly (lattice_get i j).
Proof. apply readonly_id. unfold lattice_get. repeat preserves_core. Qed.

Lemma readonly_E_flip coord s ns : readonly (E_flip coord s ns).
Proof. apply readonly_id. unfold E_flip. repeat preserves_core. Qed.

Lemma readonly_spin_neighbor_OBC (i j : Z) : readonly (spin_neighbor_OBC i j).
Proof.
  apply readonly_id. unfold spin_neighbor_OBC, lattice_get.
  repeat preserves_core.
Qed.

Lemma readonly_spin_neighbor_PBC (i j : Z) : readonly (spin_neighbor_PBC i j).
Proof.
  apply readonly_id. unfold spin_neighbor_PBC, lattice_get.
  repeat preserves_core.
Qed.

Lemma readonly_summary : readonly summary.
Proof. apply readonly_id. unfold summary. repeat preserves_core. Qed.

(** A bind whose first part only reads. *)
Lemma bind_readonly {A B} (m : Py A) (k : A -> Py B) (w : world) :
  readonly m ->
  (m ≫= k) w = match (m w).1 with
               | Ok a => k a w
               | Raise e => (Raise e, w)
               end.
Proof.
  intros H. unfold mbind, Py_bind. specialize (H w).
  destruct (m w) as [[a|e] w1]; cbn in *; now subst.
Qed.

(** ** The write [lattice[i, j] *= -1] *)

(** What a successful flip does: one cell, found at its offset, holds the
    negated value; all the rest of the state is as before. *)
Lemma lattice_flip_Ok (i j : Z) (w w1 : world) :
  lattice_flip i j w = (Ok tt, w1) ->
  exists k v,
    offset (lattice (self w)) i j = Some k
    /\ data (lattice (self w)) !! k = Some v
    /\ w1 = mk_world
              (mk_MonteCarlo
                 (mk_ndarray (shape (lattice (self w)))
                    (<[k := v * -1]> (data (lattice (self w)))))
                 (dimen (self w)) (J (self w)) (epsilon (self w))
                 (k_B (self w)) (T (self w)))
              (drawn w).
Proof.
  unfold lattice_flip. py_step.
  destruct (getitem (lattice (self w)) i j) as [v|e] eqn:Hg; py_step;
    [|discriminate].
  apply getitem_Ok in Hg as (k & Hoff & Hk).
  unfold setitem. rewrite Hoff.
  destruct (decide (k < length (data (lattice (self w))))%nat); py_step;
    [|discriminate].
  intros [= <-]. now exists k, v.
Qed.

(** A flip that fails leaves the state as it was. *)
Lemma lattice_flip_Raise (i j : Z) (w w1 : world) (e : exn) :
  lattice_flip i j w = (Raise e, w1) -> w1 = w.
Proof.
  unfold lattice_flip. py_step.
  destruct (getitem (lattice (self w)) i j) as [v|e'] eqn:Hg; py_step;
    [|now intros [= _ <-]].
  unfold setitem. destruct (offset (lattice (self w)) i j) as [k|]; py_step;
    [|now intros [= _ <-]].
  destruct (decide (k < length (data (lattice (self w))))%nat); py_step;
    [discriminate | now intros [= _ <-]].
Qed.

(** X8. Flipping the same site twice restores the state exactly: the
    write [lattice[i, j] *= -1] is its own inverse. *)
Theorem lattice_flip_twice (i j : Z) (w w1 : world) :
  lattice_flip i j w = (Ok tt, w1) -> lattice_flip i j w1 = (Ok tt, w).
Proof.
  intros H. apply lattice_flip_Ok in H as (k & v & Hoff & Hk & ->).
  pose proof (lookup_lt_Some _ _ _ Hk) as Hlt.
  set (a1 := mk_ndarray (shape (lattice (self w)))
               (<[k := v * -1]> (data (lattice (self w))))).
  assert (Hoff1 : offset a1 i j = Some k) by exact Hoff.
  assert (Hg1 : getitem a1 i j = Ok (v * -1)).
  { unfold getitem. rewrite Hoff1. unfold a1. cbn [data].
    now rewrite list_lookup_insert_eq by exact Hlt. }
  assert (Hs1 : setitem a1 i j (v * -1 * -1) = Ok (lattice (self w))).
  { unfold setitem. rewrite Hoff1. unfold a1. cbn [data shape].
    rewrite decide_True by (rewrite length_insert; exact Hlt).
    rewrite list_insert_insert_eq.
    replace (v * -1 * -1) with v by lia. rewrite list_insert_id by exact Hk.
    now destruct (lattice (self w)). }
  unfold lattice_flip. py_step. cbn [self lattice].
  rewrite Hg1. py_step. rewrite Hs1. py_step. unfold set_lattice. cbn.
  now destruct w as [[[sh da] dm jj ep kb tt'] dr].
Qed.

Lemma lattice_flip_twice_witness :
  lattice_flip 0 1
    (mk_world (init_default (mk_ndarray (2%nat, 3%nat) [1; 1; 1; -1; 1; 1])) 0)
  = (Ok tt, mk_world (init_default lattice_2x3) 0).
Proof.
  apply (lattice_flip_twice 0 1 (mk_world (init_default lattice_2x3) 0)).
  reflexivity.
Defined.

Lemma np_sum_insert (l : list Z) (k : nat) (v x : Z) :
  l !! k = Some v -> np_sum (<[k := x]> l) = np_sum l - v + x.
Proof.
  unfold np_sum. revert k. induction l as [|y l IH]; intros [|k] Hk;
    try discriminate.
  - cbn in *. injection Hk as ->. lia.
  - specialize (IH k Hk). cbn in *.
    transitivity (y + (foldr Z.add 0 l - v + x));
      [exact (f_equal (Z.add y) IH) | lia].
Qed.

(** X9. A successful flip of a site that holds [v] changes the total spin
    of the lattice by [-2 * v], and leaves the number of cells alone. *)
Theorem lattice_flip_total (i j v : Z) (w w1 : world) :
  lattice_get i j w = (Ok v, w) ->
  lattice_flip i j w = (Ok tt, w1) ->
  total (lattice (self w1)) = total (lattice (self w)) - 2 * v
  /\ size (lattice (self w1)) = size (lattice (self w)).
Proof.
  intros Hv H. apply lattice_flip_Ok in H as (k & v' & Hoff & Hk & ->).
  unfold lattice_get in Hv. rewrite bind_gets in Hv. injection Hv as Hv.
  apply getitem_Ok in Hv as (k' & Hoff' & Hk').
  rewrite Hoff in Hoff'. injection Hoff' as <-.
  rewrite Hk in Hk'. injection Hk' as ->.
  unfold total, size. cbn [self lattice data]. split.
  - rewrite (np_sum_insert _ _ _ _ Hk). lia.
  - apply length_insert.
Qed.

Lemma lattice_flip_total_witness :
  total (lattice (self (lattice_flip 0 1
           (mk_world (init_default lattice_2x3) 0)).2))
  = total lattice_2x3 - 2 * -1.
Proof.
  apply (proj1 (lattice_flip_total 0 1 (-1)
                  (mk_world (init_default lattice_2x3) 0) _ eq_refl eq_refl)).
Defined.

(** ** One site at a time *)

Section Visits.
Variable ranf : nat -> Q.
Variable exp_fin : Q -> f64.

Lemma flip_decider_self (E : scalar) (w : world) :
  self (flip_decider ranf exp_fin E w).2 = self w.
Proof.
  destruct (Z.lt_ge_cases (val E) 0) as [H|H].
  - now rewrite flip_decider_neg.
  - now rewrite flip_decider_nonneg.
Qed.

(** The state after a visit: either only the generator has moved, or in
    addition the visited cell has been negated. *)
Lemma visit_cases (sn : Z -> Z -> Py (list Z)) (i j : Z) (w : world) :
  (forall i j, readonly (sn i j)) ->
  let w' := (visit ranf exp_fin sn i j w).2 in
  self w' = self w
  \/ exists k v,
       offset (lattice (self w)) i j = Some k
       /\ data (lattice (self w)) !! k = Some v
       /\ self w'
          = mk_MonteCarlo
              (mk_ndarray (shape (lattice (self w)))
                 (<[k := v * -1]> (data (lattice (self w)))))
              (dimen (self w)) (J (self w)) (epsilon (self w))
              (k_B (self w)) (T (self w)).
Proof.
  intros Hsn w'. subst w'. unfold visit.
  rewrite bind_readonly by apply readonly_lattice_get.
  destruct (lattice_get i j w).1 as [s|e]; [|now left].
  rewrite bind_readonly by apply Hsn.
  destruct (sn i j w).1 as [ns|e]; [|now left].
  rewrite bind_readonly by apply readonly_E_flip.
  destruct (E_flip (i, j) s ns w).1 as [en|e]; [|now left].
  unfold mbind, Py_bind.
  pose proof (flip_decider_self (NpNum en) w) as Hself.
  destruct (flip_decider ranf exp_fin (NpNum en) w) as [[[|]|e] w1];
    cbn [snd] in *; try (left; exact Hself).
  destruct (lattice_flip i j w1) as [[[]|e] w2] eqn:Hf; cbn [snd].
  - apply lattice_flip_Ok in Hf as (k & v & Hoff & Hk & ->).
    right. exists k, v. rewrite Hself in *. now repeat split.
  - apply lattice_flip_Raise in Hf as ->. now left.
Qed.

(** X10. A visit of site [(i, j)] writes no cell but that one: every other
    offset of the lattice holds the same value after the visit, whatever
    the outcome, and the cell itself holds its old value or the negated
    one. *)
Theorem visit_is_local (sn : Z -> Z -> Py (list Z)) (i j : Z) (w : world) :
  sn = spin_neighbor_OBC \/ sn = spin_neighbor_PBC ->
  let a := lattice (self w) in
  let a' := lattice (self (visit ranf exp_fin sn i j w).2) in
  (forall k, offset a i j <> Some k -> data a' !! k = data a !! k)
  /\ (forall k v, offset a i j = Some k -> data a !! k = Some v ->
        data a' !! k = Some v \/ data a' !! k = Some (v * -1)).
Proof.
  intros Hsn a a'. subst a a'.
  destruct (visit_cases sn i j w) as [H | (k & v & Hoff & Hk & H)].
  { destruct Hsn as [-> | ->]; intros; [apply readonly_spin_neighbor_OBC
                                        | apply readonly_spin_neighbor_PBC]. }
  - rewrite H. split; [reflexivity|]. intros k v _ Hk. now left.
  - rewrite H. cbn [lattice data]. split.
    + intros k' Hne. apply list_lookup_insert_ne. congruence.
    + intros k' v' Hoff' Hk'. rewrite Hoff in Hoff'. injection Hoff' as <-.
      rewrite Hk in Hk'. injection Hk' as <-. right.
      apply list_lookup_insert_eq. eapply lookup_lt_Some; exact Hk.
Qed.

(** X11. Away from the first and last row and column the two policies
    read the same four neighbours, so a visit does the same under ['OBC']
    and under ['PBC']. *)
Theorem interior_policies_agree (n_i n_j : Z) (w : world) :
  n_i <> 0 -> n_j <> 0 ->
  n_i <> Z.of_nat (dimen (self w)).1 - 1 ->
  n_j <> Z.of_nat (dimen (self w)).2 - 1 ->
  spin_neighbor_OBC n_i n_j w = spin_neighbor_PBC n_i n_j w
  /\ visit ranf exp_fin spin_neighbor_OBC n_i n_j w
     = visit ranf exp_fin spin_neighbor_PBC n_i n_j w.
Proof.
  intros Hi Hj Hi' Hj'.
  assert (H : spin_neighbor_OBC n_i n_j w = spin_neighbor_PBC n_i n_j w).
  { unfold spin_neighbor_OBC, spin_neighbor_PBC. py_step.
    apply Z.eqb_neq in Hi, Hj, Hi', Hj'. now rewrite Hi, Hj, Hi', Hj'. }
  split; [exact H|]. unfold visit.
  rewrite !(bind_readonly (lattice_get n_i n_j)) by apply readonly_lattice_get.
  destruct (lattice_get n_i n_j w).1; [|reflexivity].
  unfold mbind at 1 5, Py_bind. now rewrite H.
Qed.

End Visits.

Lemma visit_is_local_witness :
  data (lattice (self (visit ranf_half exp_one spin_neighbor_PBC 0 1
                         (mk_world (init_default lattice_2x3) 0)).2)) !! 4%nat
  = data lattice_2x3 !! 4%nat.
Proof.
  apply (proj1 (visit_is_local ranf_half exp_one spin_neighbor_PBC 0 1
                  (mk_world (init_default lattice_2x3) 0) (or_intror eq_refl))).
  discriminate.
Defined.

Lemma interior_policies_agree_witness :
  visit ranf_half exp_one spin_neighbor_OBC 1 1
    (mk_world (init_default ones_4x4) 0)
  = visit ranf_half exp_one spin_neighbor_PBC 1 1
      (mk_world (init_default ones_4x4) 0).
Proof.
  apply (proj2 (interior_policies_agree ranf_half exp_one 1 1
                  (mk_world (init_default ones_4x4) 0)
                  ltac:(lia) ltac:(lia) ltac:(cbn; lia) ltac:(cbn; lia))).
Defined.

(** ** Neighbours under the open policy, and on narrow lattices *)

Section OpenNeighbours.
Variable w : world.
Hypothesis Hw : wf_world w.
Variables r c : nat.
Hypothesis Hr : (r < (shape (lattice (self w))).1)%nat.
Hypothesis Hc : (c < (shape (lattice (self w))).2)%nat.

Let a := lattice (self w).
Let rows := (shape (lattice (self w))).1.
Let cols := (shape (lattice (self w))).2.

Lemma open_left :
  exists v, (if Z.of_nat c =? 0 then mret 0
             else lattice_get (Z.of_nat r) (Z.of_nat c - 1)) w = (Ok v, w)
    /\ (if (c =? 0)%nat then Some 0 else cell a r (c - 1)) = Some v.
Proof.
  destruct (Z.eqb_spec (Z.of_nat c) 0), (Nat.eqb_spec c 0); try lia.
  - now exists 0.
  - replace (Z.of_nat c - 1) with (Z.of_nat (c - 1)) by lia.
    apply lattice_get_nat; try assumption. lia.
Qed.

Lemma open_right :
  exists v, (if Z.of_nat c =? Z.of_nat (dimen (self w)).2 - 1 then mret 0
             else lattice_get (Z.of_nat r) (Z.of_nat c + 1)) w = (Ok v, w)
    /\ (if (c =? cols - 1)%nat then Some 0 else cell a r (c + 1)) = Some v.
Proof.
  destruct Hw as [Hd _]. rewrite Hd. fold cols.
  destruct (Z.eqb_spec (Z.of_nat c) (Z.of_nat cols - 1)),
           (Nat.eqb_spec c (cols - 1)); try lia.
  - now exists 0.
  - replace (Z.of_nat c + 1) with (Z.of_nat (c + 1)) by lia.
    apply lattice_get_nat; try assumption. fold cols. lia.
Qed.

Lemma open_up :
  exists v, (if Z.of_nat r =? 0 then mret 0
             else lattice_get (Z.of_nat r - 1) (Z.of_nat c)) w = (Ok v, w)
    /\ (if (r =? 0)%nat then Some 0 else cell a (r - 1) c) = Some v.
Proof.
  destruct (Z.eqb_spec (Z.of_nat r) 0), (Nat.eqb_spec r 0); try lia.
  - now exists 0.
  - replace (Z.of_nat r - 1) with (Z.of_nat (r - 1)) by lia.
    apply lattice_get_nat; try assumption. lia.
Qed.

Lemma open_down :
  exists v, (if Z.of_nat r =? Z.of_nat (dimen (self w)).1 - 1 then mret 0
             else lattice_get (Z.of_nat r + 1) (Z.of_nat c)) w = (Ok v, w)
    /\ (if (r =? rows - 1)%nat then Some 0 else cell a (r + 1) c) = Some v.
Proof.
  destruct Hw as [Hd _]. rewrite Hd. fold rows.
  destruct (Z.eqb_spec (Z.of_nat r) (Z.of_nat rows - 1)),
           (Nat.eqb_spec r (rows - 1)); try lia.
  - now exists 0.
  - replace (Z.of_nat r + 1) with (Z.of_nat (r + 1)) by lia.
    apply lattice_get_nat; try assumption. fold rows. lia.
Qed.

Lemma spin_neighbor_OBC_cells :
  exists l rt u d,
    spin_neighbor_OBC (Z.of_nat r) (Z.of_nat c) w = (Ok [l; rt; u; d], w)
    /\ (if (c =? 0)%nat then Some 0 else cell a r (c - 1)) = Some l
    /\ (if (c =? cols - 1)%nat then Some 0 else cell a r (c + 1)) = Some rt
    /\ (if (r =? 0)%nat then Some 0 else cell a (r - 1) c) = Some u
    /\ (if (r =? rows - 1)%nat then Some 0 else cell a (r + 1) c) = Some d.
Proof.
  destruct open_left as (l & Hl & Cl), open_right as (rt & Hrt & Crt),
           open_up as (u & Hu & Cu), open_down as (d & Hd & Cd).
  exists l, rt, u, d. repeat split; try assumption.
  unfold spin_neighbor_OBC. py_step.
  rewrite (bind_Ok _ _ _ _ _ Hl), (bind_Ok _ _ _ _ _ Hrt),
          (bind_Ok _ _ _ _ _ Hu), (bind_Ok _ _ _ _ _ Hd).
  reflexivity.
Qed.

End OpenNeighbours.

(** X12. Under ['OBC'] the four neighbours of a site are the adjacent
    cells where there is one, and the number 0 where the site lies on the
    edge in that direction (first or last column for left and right, first
    or last row for up and down); nothing wraps around and every read is
    inside the grid. This is the neighbour set that [sweep] uses for
    ['OBC']. *)
Theorem OBC_neighbours_open (ranf : nat -> Q) (exp_fin : Q -> f64) (w : world)
    (r c : nat) :
  wf_world w ->
  (r < (shape (lattice (self w))).1)%nat ->
  (c < (shape (lattice (self w))).2)%nat ->
  let a := lattice (self w) in
  let rows := (shape a).1 in
  let cols := (shape a).2 in
  sweep ranf exp_fin "OBC" = scan ranf exp_fin spin_neighbor_OBC
  /\ exists l rt u d,
    spin_neighbor_OBC (Z.of_nat r) (Z.of_nat c) w = (Ok [l; rt; u; d], w)
    /\ (if (c =? 0)%nat then Some 0 else cell a r (c - 1)) = Some l
    /\ (if (c =? cols - 1)%nat then Some 0 else cell a r (c + 1)) = Some rt
    /\ (if (r =? 0)%nat then Some 0 else cell a (r - 1) c) = Some u
    /\ (if (r =? rows - 1)%nat then Some 0 else cell a (r + 1) c) = Some d.
Proof.
  intros Hw Hr Hc a rows cols. split; [reflexivity|].
  now apply spin_neighbor_OBC_cells.
Qed.

Lemma OBC_neighbours_open_witness :
  spin_neighbor_OBC 0 0 (mk_world (init_default lattice_2x3) 0)
  = (Ok [0; -1; 0; -1], mk_world (init_default lattice_2x3) 0).
Proof.
  destruct (OBC_neighbours_open ranf_half exp_one
              (mk_world (init_default lattice_2x3) 0) 0 0)
    as (_ & l & rt & u & d & H & Cl & Crt & Cu & Cd).
  - split; reflexivity.
  - cbn; lia.
  - cbn; lia.
  - cbv in Cl, Crt, Cu, Cd.
    injection Cl as <-. injection Crt as <-. injection Cu as <-.
    injection Cd as <-. exact H.
Defined.

(** X13. Under ['PBC'] a lattice with a single column makes a site its
    own left and right neighbour, and one with a single row its own up and
    down neighbour; with exactly two columns (rows) the left and right (up
    and down) neighbours are one and the same cell, counted twice. *)
Theorem PBC_narrow_lattice (w : world) (r c : nat) :
  wf_world w ->
  (r < (shape (lattice (self w))).1)%nat ->
  (c < (shape (lattice (self w))).2)%nat ->
  exists s l rt u d,
    lattice_get (Z.of_nat r) (Z.of_nat c) w = (Ok s, w)
    /\ spin_neighbor_PBC (Z.of_nat r) (Z.of_nat c) w = (Ok [l; rt; u; d], w)
    /\ ((shape (lattice (self w))).2 = 1%nat -> l = s /\ rt = s)
    /\ ((shape (lattice (self w))).1 = 1%nat -> u = s /\ d = s)
    /\ ((shape (lattice (self w))).2 = 2%nat -> l = rt)
    /\ ((shape (lattice (self w))).1 = 2%nat -> u = d).
Proof.
  intros Hw Hr Hc.
  destruct (lattice_get_nat w r c Hw Hr Hc) as (s & Hs & Cs).
  destruct (spin_neighbor_PBC_cells w Hw r c Hr Hc)
    as (l & rt & u & d & H & Cl & Crt & Cu & Cd).
  exists s, l, rt, u, d. split; [exact Hs|]. split; [exact H|].
  split; [|split; [|split]]; intros Hn; rewrite Hn in *.
  - assert (c = 0)%nat as -> by lia. cbn in Cl, Crt. split; congruence.
  - assert (r = 0)%nat as -> by lia. cbn in Cu, Cd. split; congruence.
  - destruct c as [|[|c]]; [| |lia]; cbn in Cl, Crt; congruence.
  - destruct r as [|[|r]]; [| |lia]; cbn in Cu, Cd; congruence.
Qed.

Lemma PBC_narrow_lattice_witness :
  exists s l rt u d,
    lattice_get 0 0 (mk_world (init_default cell_1x1) 0)
    = (Ok s, mk_world (init_default cell_1x1) 0)
    /\ spin_neighbor_PBC 0 0 (mk_world (init_default cell_1x1) 0)
       = (Ok [l; rt; u; d], mk_world (init_default cell_1x1) 0)
    /\ l = s /\ rt = s /\ u = s /\ d = s.
Proof.
  destruct (PBC_narrow_lattice (mk_world (init_default cell_1x1) 0) 0 0)
    as (s & l & rt & u & d & Hs & H & Hc & Hr & _).
  - split; reflexivity.
  - cbn; lia.
  - cbn; lia.
  - exists s, l, rt, u, d. destruct (Hc eq_refl), (Hr eq_refl). now repeat split.
Defined.

(** ** Whole sweeps *)

Lemma draws_readonly {A} (m : Py A) : readonly m -> draws_at_most 0 m.
Proof. intros H w. rewrite H. lia. Qed.

Lemma draws_bind {A B} (a b : nat) (m : Py A) (k : A -> Py B) :
  draws_at_most a m -> (forall x, draws_at_most b (k x)) ->
  draws_at_most (a + b) (m ≫= k).
Proof.
  intros Hm Hk w. unfold mbind, Py_bind. specialize (Hm w).
  destruct (m w) as [[x|e] w1]; cbn [snd] in *.
  - specialize (Hk x w1). lia.
  - lia.
Qed.

Lemma draws_for {A} (n : nat) (xs : list A) (body : A -> Py unit) :
  (forall x, draws_at_most n (body x)) ->
  draws_at_most (length xs * n) (for_ xs body).
Proof.
  intros Hb. induction xs as [|x xs IH]; cbn [for_ length].
  - intros w. cbn. lia.
  - replace (S (length xs) * n)%nat with (n + length xs * n)%nat by lia.
    apply draws_bind; [apply Hb | intros _; exact IH].
Qed.

Lemma length_range (n : nat) : length (range n) = n.
Proof. unfold range. now rewrite length_map, length_seq. Qed.

Section Sweeps.
Variable ranf : nat -> Q.
Variable exp_fin : Q -> f64.

Lemma preserves_params_visit (sn : Z -> Z -> Py (list Z)) (i j : Z) :
  (forall i j, readonly (sn i j)) ->
  preserves params (visit ranf exp_fin sn i j).
Proof.
  intros Hsn w. destruct (visit_cases ranf exp_fin sn i j w Hsn)
    as [H | (k & v & _ & _ & H)]; unfold params; now rewrite H.
Qed.

Lemma draws_visit (sn : Z -> Z -> Py (list Z)) (i j : Z) :
  (forall i j, readonly (sn i j)) ->
  draws_at_most 1 (visit ranf exp_fin sn i j).
Proof.
  intros Hsn. unfold visit.
  apply (draws_bind 0 1); [apply draws_readonly, readonly_lattice_get|intros s].
  apply (draws_bind 0 1); [apply draws_readonly, Hsn|intros ns].
  apply (draws_bind 0 1); [apply draws_readonly, readonly_E_flip|intros e].
  apply (draws_bind 1 0).
  - intros w. destruct (Z.lt_ge_cases (val (NpNum e)) 0) as [H|H].
    + rewrite flip_decider_neg by exact H. cbn. lia.
    + rewrite flip_decider_nonneg by exact H. cbn. lia.
  - intros [|]; [|apply draws_readonly; intros w; reflexivity].
    intros w. destruct (lattice_flip i j w) as [[[]|x] w1] eqn:Hf; cbn [snd].
    + apply lattice_flip_Ok in Hf as (k & v & _ & _ & ->). cbn. lia.
    + apply lattice_flip_Raise in Hf as ->. lia.
Qed.

Lemma scan_effects (sn : Z -> Z -> Py (list Z)) (w : world) :
  (forall i j, readonly (sn i j)) -> (forall i j, stable (sn i j)) ->
  params (scan ranf exp_fin sn w).2 = params w
  /\ (drawn w <= drawn (scan ranf exp_fin sn w).2
      <= drawn w + (dimen (self w)).1 * (dimen (self w)).2)%nat.
Proof.
  intros Hro Hst. split.
  - revert w. change (preserves params (scan ranf exp_fin sn)). unfold scan.
    apply preserves_bind; [apply preserves_gets|intros d0].
    apply preserves_for; intros n_i.
    apply preserves_bind; [apply preserves_gets|intros d1].
    apply preserves_for; intros n_j. now apply preserves_params_visit.
  - unfold scan. py_step.
    set (cols := (dimen (self w)).2).
    set (body := fun n_i : Z =>
                   gets dimen ≫= fun d1 =>
                   for_ (range d1.2) (fun n_j => visit ranf exp_fin sn n_i n_j)).
    assert (Hbody : forall n_i w1, dimen (self w1) = dimen (self w) ->
              dimen (self (body n_i w1).2) = dimen (self w)
              /\ (drawn w1 <= drawn (body n_i w1).2 <= drawn w1 + cols)%nat).
    { intros n_i w1 Hd. split.
      - rewrite <- Hd.
        assert (Hs : stable (body n_i)).
        { unfold body. apply stable_bind; [apply stable_gets|intros d1].
          apply stable_for; intros n_j. now apply stable_visit. }
        specialize (Hs w1). unfold frame in Hs. now injection Hs.
      - unfold body. rewrite bind_gets. rewrite Hd. fold cols.
        pose proof (draws_for 1 (range cols)
                      (fun n_j => visit ranf exp_fin sn n_i n_j)
                      (fun n_j => draws_visit sn n_i n_j Hro) w1) as Hb.
        rewrite length_range in Hb. lia. }
    assert (Hloop : forall xs w1, dimen (self w1) = dimen (self w) ->
              (drawn w1 <= drawn (for_ xs body w1).2
               <= drawn w1 + length xs * cols)%nat).
    { induction xs as [|x xs IH]; intros w1 Hd; cbn [for_ length].
      - cbn. lia.
      - unfold mbind, Py_bind. destruct (Hbody x w1 Hd) as [Hd2 Hb2].
        destruct (body x w1) as [[[]|e] w2]; cbn [snd] in *.
        + specialize (IH w2 Hd2). lia.
        + lia. }
    specialize (Hloop (range (dimen (self w)).1) w eq_refl).
    now rewrite length_range in Hloop.
Qed.

(** X14. Whatever the selector and however it ends, [sweep] changes none
    of [J], [epsilon], [k_B] and [T], and takes at most one sample per site:
    the generator advances by at most [dimen[0] * dimen[1]] and never goes
    back. *)
Theorem sweep_effects (BC : string) (w : world) :
  params (sweep ranf exp_fin BC w).2 = params w
  /\ (drawn w <= drawn (sweep ranf exp_fin BC w).2
      <= drawn w + (dimen (self w)).1 * (dimen (self w)).2)%nat.
Proof.
  unfold sweep. repeat case_decide.
  - apply scan_effects; [apply readonly_spin_neighbor_OBC
                        | apply stable_spin_neighbor_OBC].
  - apply scan_effects; [apply readonly_spin_neighbor_PBC
                        | apply stable_spin_neighbor_PBC].
  - cbn. split; [reflexivity | lia].
Qed.

Lemma for_skip {A} (xs : list A) (body : A -> Py unit) (w : world) :
  (forall x, body x w = (Ok tt, w)) -> for_ xs body w = (Ok tt, w).
Proof.
  intros Hb. induction xs as [|x xs IH]; cbn [for_]; [reflexivity|].
  now rewrite (bind_Ok _ _ _ _ _ (Hb x)).
Qed.

(** X15. On a lattice with no row or no column, [sweep] under either
    policy returns at once: no site is visited, no sample is taken, and the
    state is as before. *)
Theorem sweep_empty_lattice (BC : string) (w : world) :
  BC = "OBC"%string \/ BC = "PBC"%string ->
  (dimen (self w)).1 = 0%nat \/ (dimen (self w)).2 = 0%nat ->
  sweep ranf exp_fin BC w = (Ok tt, w).
Proof.
  intros HBC Hd.
  assert (H : forall sn, scan ranf exp_fin sn w = (Ok tt, w)).
  { intros sn. unfold scan. py_step. destruct Hd as [-> | Hc]; [reflexivity|].
    apply for_skip. intros n_i. py_step. now rewrite Hc. }
  destruct HBC as [-> | ->]; apply H.
Qed.

Lemma np_mul_mismatch_4 (js : list Z) (l rt u d : Z) :
  length js <> 4%nat -> length js <> 1%nat ->
  np_mul (Jarray js) [l; rt; u; d] = Raise ValueError.
Proof.
  intros H4 H1. cbn [np_mul]. rewrite decide_False by exact H4.
  destruct js as [|c [|c' js]]; cbn in *; try lia; reflexivity.
Qed.

(** X16. When [J] is an array whose length is neither 4 nor 1, a sweep of
    a lattice with at least one site raises [ValueError] at the first site,
    before any sample is taken, and the state is as before. *)
Theorem sweep_bad_coupling (BC : string) (js : list Z) (w : world) :
  BC = "OBC"%string \/ BC = "PBC"%string ->
  wf_world w ->
  (0 < (shape (lattice (self w))).1)%nat ->
  (0 < (shape (lattice (self w))).2)%nat ->
  J (self w) = Jarray js -> length js <> 4%nat -> length js <> 1%nat ->
  sweep ranf exp_fin BC w = (Raise ValueError, w).
Proof.
  intros HBC Hw Hr Hc HJ H4 H1.
  assert (H : forall sn,
             (exists l rt u d, sn 0 0 w = (Ok [l; rt; u; d], w)) ->
             scan ranf exp_fin sn w = (Raise ValueError, w)).
  { intros sn (l & rt & u & d & Hsn).
    destruct (lattice_get_nat w 0 0 Hw Hr Hc) as (s & Hs & _).
    assert (Hv : visit ranf exp_fin sn 0 0 w = (Raise ValueError, w)).
    { unfold visit. change (Z.of_nat 0) with 0 in Hs.
      rewrite (bind_Ok _ _ _ _ _ Hs), (bind_Ok _ _ _ _ _ Hsn).
      apply bind_Raise. unfold E_flip. py_step. rewrite HJ.
      rewrite np_mul_mismatch_4 by assumption. now py_step. }
    unfold scan. py_step. destruct Hw as [Hd _]. rewrite Hd.
    destruct (shape (lattice (self w))).1 as [|rows] eqn:Er; [lia|].
    unfold range at 1. cbn [seq map for_]. apply bind_Raise. py_step.
    rewrite Hd.
    destruct (shape (lattice (self w))).2 as [|cols] eqn:Ec; [lia|].
    unfold range at 1. cbn [seq map for_]. now apply bind_Raise. }
  destruct HBC as [-> | ->]; apply H.
  - exact (spin_neighbor_OBC_returns w 0 0 Hw Hr Hc).
  - exact (spin_neighbor_PBC_returns w 0 0 Hw Hr Hc).
Qed.

End Sweeps.

Lemma sweep_empty_lattice_witness :
  sweep ranf_half exp_one "PBC"
    (mk_world (init_default (mk_ndarray (3%nat, 0%nat) [])) 0)
  = (Ok tt, mk_world (init_default (mk_ndarray (3%nat, 0%nat) [])) 0).
Proof.
  apply sweep_empty_lattice; [now right | now right].
Defined.

Lemma sweep_bad_coupling_witness :
  sweep ranf_half exp_one "OBC"
    (mk_world (init lattice_2x3 (Jarray [1; 2; 3]) 0 (PyNum 1) (PyNum 0)) 0)
  = (Raise ValueError,
     mk_world (init lattice_2x3 (Jarray [1; 2; 3]) 0 (PyNum 1) (PyNum 0)) 0).
Proof.
  apply (sweep_bad_coupling ranf_half exp_one "OBC" [1; 2; 3]);
    [now left | split; reflexivity | cbn; lia | cbn; lia | reflexivity
    | cbn; lia | cbn; lia].
Defined.

(** ** The order of a sweep *)

Lemma for_app {A} (xs ys : list A) (body : A -> Py unit) (w : world) :
  for_ (xs ++ ys) body w = (for_ xs body ≫= fun _ => for_ ys body) w.
Proof.
  revert w. induction xs as [|x xs IH]; intros w; [reflexivity|].
  cbn [app for_]. unfold mbind, Py_bind.
  destruct (body x w) as [[[]|e] w1]; [|reflexivity].
  rewrite IH. reflexivity.
Qed.

Lemma bind_eq {A B} (m m' : Py A) (k k' : A -> Py B) (w : world) :
  m w = m' w ->
  (forall a w1, m w = (Ok a, w1) -> k a w1 = k' a w1) ->
  (m ≫= k) w = (m' ≫= k') w.
Proof.
  intros Hm Hk. unfold mbind, Py_bind. rewrite <- Hm.
  destruct (m w) as [[a|e] w1]; [now apply Hk | reflexivity].
Qed.

Lemma for_map {A B} (g : A -> B) (xs : list A) (body : B -> Py unit) (w : world) :
  for_ (map g xs) body w = for_ xs (fun x => body (g x)) w.
Proof.
  revert w. induction xs as [|x xs IH]; intros w; [reflexivity|].
  cbn [map for_]. unfold mbind, Py_bind.
  destruct (body (g x) w) as [[[]|e] w1]; [apply IH | reflexivity].
Qed.

Lemma length_rows (rs : list Z) (cols : nat) :
  length (concat (map (fun n_i => map (fun n_j => (n_i, n_j)) (range cols)) rs))
  = (length rs * cols)%nat.
Proof.
  induction rs as [|x rs IH]; [reflexivity|].
  cbn [map concat]. rewrite length_app, IH, length_map, length_range.
  cbn [length]. lia.
Qed.

Lemma NoDup_map_inj {A B} (f : A -> B) (l : list A) :
  (forall x y, f x = f y -> x = y) -> NoDup l -> NoDup (map f l).
Proof.
  intros Hf. induction 1 as [|x l Hx _ IH]; cbn [map]; [apply NoDup_nil_2|].
  apply NoDup_cons_2; [|exact IH].
  intros Hin. apply list_elem_of_In, in_map_iff in Hin as (y & Hy & Hin).
  apply Hf in Hy as ->. apply Hx. now apply list_elem_of_In.
Qed.

Lemma NoDup_range (n : nat) : NoDup (range n).
Proof.
  unfold range. apply NoDup_map_inj; [intros x y; lia | apply NoDup_seq].
Qed.

Lemma NoDup_rows (rs : list Z) (cols : nat) :
  NoDup rs ->
  NoDup (concat (map (fun n_i => map (fun n_j => (n_i, n_j)) (range cols)) rs)).
Proof.
  induction 1 as [|x rs Hx _ IH]; cbn [map concat]; [apply NoDup_nil_2|].
  apply NoDup_app. split; [|split; [|exact IH]].
  - apply NoDup_map_inj; [now intros y z [= ->] | apply NoDup_range].
  - intros [a b] Ha Hb.
    apply list_elem_of_In, in_map_iff in Ha as (y & [= <- <-] & _).
    apply list_elem_of_In, in_concat in Hb as (l & Hl & Hin).
    apply in_map_iff in Hl as (z & <- & Hz).
    apply in_map_iff in Hin as (y' & [= <- _] & _).
    apply Hx. now apply list_elem_of_In.
Qed.

Lemma In_row_major (d : nat * nat) (r c : nat) :
  (r < d.1)%nat -> (c < d.2)%nat -> In (Z.of_nat r, Z.of_nat c) (row_major d).
Proof.
  intros Hr Hc. unfold row_major. apply in_concat.
  exists (map (fun n_j => (Z.of_nat r, n_j)) (range d.2)). split.
  - apply in_map_iff. exists (Z.of_nat r). split; [reflexivity|].
    unfold range. apply in_map, in_seq. lia.
  - apply in_map. unfold range. apply in_map, in_seq. lia.
Qed.

Section Order.
Variable ranf : nat -> Q.
Variable exp_fin : Q -> f64.

Lemma rows_row_major (sn : Z -> Z -> Py (list Z)) (d : nat * nat)
    (rs : list Z) (w : world) :
  (forall i j, stable (sn i j)) ->
  dimen (self w) = d ->
  for_ rs (fun n_i =>
      gets dimen ≫= fun d1 =>
      for_ (range d1.2) (fun n_j => visit ranf exp_fin sn n_i n_j)) w
  = for_ (concat (map (fun n_i => map (fun n_j => (n_i, n_j)) (range d.2)) rs))
      (fun p => visit ranf exp_fin sn p.1 p.2) w.
Proof.
  intros Hsn. revert w. induction rs as [|n_i rs IH]; intros w Hd;
    [reflexivity|].
  cbn [map concat for_]. rewrite for_app.
  assert (Hrow : (gets dimen ≫= fun d1 =>
                  for_ (range d1.2) (fun n_j => visit ranf exp_fin sn n_i n_j)) w
                 = for_ (map (fun n_j => (n_i, n_j)) (range d.2))
                     (fun p => visit ranf exp_fin sn p.1 p.2) w).
  { rewrite for_map, bind_gets, Hd. reflexivity. }
  apply bind_eq; [exact Hrow|]. intros [] w1 H1. apply IH.
  assert (Hst : stable (for_ (map (fun n_j => (n_i, n_j)) (range d.2))
                          (fun p => visit ranf exp_fin sn p.1 p.2)))
    by (apply stable_for; intros p; now apply stable_visit).
  specialize (Hst w). rewrite <- Hrow, H1 in Hst. cbn [snd] in Hst.
  unfold frame in Hst. injection Hst as -> _ _ _ _ _. exact Hd.
Qed.

(** X17. Under a recognized policy [sweep] is one pass over the sites in
    row-major order, each site visited exactly once, every visit running in
    the state left by the visits before it; an exception at a site ends the
    pass there. *)
Theorem sweep_row_major (BC : string) (w : world) :
  BC = "OBC"%string \/ BC = "PBC"%string ->
  let sn := if decide (BC = "OBC"%string) then spin_neighbor_OBC
            else spin_neighbor_PBC in
  sweep ranf exp_fin BC w
  = for_ (row_major (dimen (self w)))
      (fun p => visit ranf exp_fin sn p.1 p.2) w
  /\ length (row_major (dimen (self w)))
     = ((dimen (self w)).1 * (dimen (self w)).2)%nat
  /\ NoDup (row_major (dimen (self w)))
  /\ (forall r c : nat,
        (r < (dimen (self w)).1)%nat -> (c < (dimen (self w)).2)%nat ->
        In (Z.of_nat r, Z.of_nat c) (row_major (dimen (self w)))).
Proof.
  intros HBC sn. split; [|split; [|split]]; cycle 3.
  { intros r c Hr Hc. now apply In_row_major. }
  - subst sn. unfold sweep, row_major.
    destruct HBC as [-> | ->].
    + rewrite decide_True by reflexivity. unfold scan. py_step.
      apply rows_row_major; [apply stable_spin_neighbor_OBC | reflexivity].
    + rewrite decide_False by discriminate.
      rewrite decide_True by reflexivity. unfold scan. py_step.
      apply rows_row_major; [apply stable_spin_neighbor_PBC | reflexivity].
  - unfold row_major. now rewrite length_rows, length_range.
  - unfold row_major. apply NoDup_rows, NoDup_range.
Qed.

End Order.

Lemma sweep_row_major_witness :
  sweep ranf_half exp_one "PBC" (mk_world (init_default lattice_2x3) 0)
  = for_ [(0, 0); (0, 1); (0, 2); (1, 0); (1, 1); (1, 2)]
      (fun p => visit ranf_half exp_one spin_neighbor_PBC p.1 p.2)
      (mk_world (init_default lattice_2x3) 0).
Proof.
  apply (proj1 (sweep_row_major ranf_half exp_one "PBC"
                  (mk_world (init_default lattice_2x3) 0) (or_intror eq_refl))).
Defined.

(** ** Spins stay spins *)

Lemma signed_abs (m : Z) (l : list Z) :
  Forall (fun x => x = m \/ x = - m) l
  <-> Forall (fun y => y = Z.abs m) (Z.abs <$> l).
Proof.
  rewrite Forall_fmap. apply Forall_iff. intros x. cbn. lia.
Qed.

Lemma signed_frame (m : Z) (w w' : world) :
  frame w' = frame w -> signed m (lattice (self w)) ->
  signed m (lattice (self w')).
Proof.
  unfold frame, signed. intros [= _ _ Ha _ _ _] H.
  apply signed_abs. rewrite Ha. now apply signed_abs.
Qed.

Lemma positive_frame (w w' : world) :
  frame w' = frame w ->
  count_pos (lattice (self w')) + count_neg (lattice (self w'))
  = count_pos (lattice (self w)) + count_neg (lattice (self w)).
Proof.
  unfold frame. intros [= _ _ Ha _ _ _].
  assert (H : forall l : list Z,
             Z.of_nat (length (filter (fun x => 0 < x) l))
             + Z.of_nat (length (filter (fun x => x < 0) l))
             = Z.of_nat (length (filter (fun y => 0 < y) (Z.abs <$> l)))).
  { induction l as [|x l IH]; [reflexivity|]. rewrite fmap_cons.
    destruct (Z.lt_trichotomy x 0) as [Hx | [-> | Hx]].
    - rewrite (filter_cons_False (fun x => 0 < x)) by lia.
      rewrite (filter_cons_True (fun x => x < 0)) by lia.
      rewrite (filter_cons_True (fun y => 0 < y)) by lia.
      cbn [length]. lia.
    - rewrite (filter_cons_False (fun x => 0 < x)) by lia.
      rewrite (filter_cons_False (fun x => x < 0)) by lia.
      rewrite (filter_cons_False (fun y => 0 < y)) by (cbn; lia).
      exact IH.
    - rewrite (filter_cons_True (fun x => 0 < x)) by lia.
      rewrite (filter_cons_False (fun x => x < 0)) by lia.
      rewrite (filter_cons_True (fun y => 0 < y)) by lia.
      cbn [length]. lia. }
  unfold count_pos, count_neg. now rewrite !H, Ha.
Qed.

(** X18. A lattice whose cells are all [+m] or [-m] is still one after
    [sweep] and after [magnetization_Ns], whatever the selector and however
    the call ends; and the number of cells that [summary] counts as
    positive or negative is the same before and after a sweep. *)
Theorem spins_stay_signed (ranf : nat -> Q) (exp_fin : Q -> f64) (m : Z)
    (BC : string) (w : world) :
  signed m (lattice (self w)) ->
  signed m (lattice (self (sweep ranf exp_fin BC w).2))
  /\ (forall t n,
        signed m (lattice (self (magnetization_Ns ranf exp_fin t n BC w).2)))
  /\ count_pos (lattice (self (sweep ranf exp_fin BC w).2))
     + count_neg (lattice (self (sweep ranf exp_fin BC w).2))
     = count_pos (lattice (self w)) + count_neg (lattice (self w)).
Proof.
  intros H. split; [|split].
  - apply (signed_frame m w); [apply stable_sweep | exact H].
  - intros t n.
    apply (signed_frame m w); [apply stable_magnetization_Ns | exact H].
  - apply positive_frame, stable_sweep.
Qed.

Lemma spins_stay_signed_witness :
  signed 3 (lattice (self (sweep ranf_half exp_one "OBC"
                             (mk_world (init_default lattice_2x2) 0)).2)).
Proof.
  apply (proj1 (spins_stay_signed ranf_half exp_one 3 "OBC"
                  (mk_world (init_default lattice_2x2) 0)
                  ltac:(repeat (constructor; [lia|]); constructor))).
Defined.

(** X19. An instance that [__init__] builds from a rectangular array has
    [dimen] equal to the shape of its lattice and as many cells as the shape
    says; [sweep] and [magnetization_Ns] keep both facts, whatever their
    arguments and however they end. *)
Theorem instance_stays_rectangular (ranf : nat -> Q) (exp_fin : Q -> f64)
    (a : ndarray) (j : coupling) (eps : Z) (kB t : scalar) (d : nat) :
  wf_ndarray a ->
  wf_world (mk_world (init a j eps kB t) d)
  /\ forall (w : world), wf_world w ->
       (forall BC, wf_world (sweep ranf exp_fin BC w).2)
       /\ (forall t' n BC, wf_world (magnetization_Ns ranf exp_fin t' n BC w).2).
Proof.
  intros Ha. split; [now split|]. intros w Hw.
  assert (H : forall w', frame w' = frame w -> wf_world w').
  { unfold frame. intros w' [= Hd Hs Habs _ _ _]. destruct Hw as [Hdim Hwf].
    split.
    - now rewrite Hd, Hs.
    - unfold wf_ndarray in *. rewrite Hs, <- Hwf.
      rewrite <- (length_fmap Z.abs), Habs. apply length_fmap. }
  split.
  - intros BC. apply H, stable_sweep.
  - intros t' n BC. apply H, stable_magnetization_Ns.
Qed.

Lemma instance_stays_rectangular_witness :
  wf_world (sweep ranf_half exp_one "PBC"
              (mk_world (init lattice_2x3 (Jscalar 1) 0 (PyNum 1) (PyNum 0)) 0)).2.
Proof.
  destruct (instance_stays_rectangular ranf_half exp_one lattice_2x3 (Jscalar 1)
              0 (PyNum 1) (PyNum 0) 0 eq_refl) as [H0 H].
  exact (proj1 (H _ H0) "PBC"%string).
Defined.

(** ** More on the mean over [n] sweeps *)

Lemma abs_np_sum (l : list Z) : Z.abs (np_sum l) <= np_sum (Z.abs <$> l).
Proof.
  unfold np_sum. induction l as [|x l IH]; [reflexivity|].
  rewrite fmap_cons. cbn [foldr]. lia.
Qed.

Lemma np_sum_bounded (s : Z) (l : list Z) :
  Forall (fun t => Z.abs t <= s) l ->
  Z.abs (np_sum l) <= Z.of_nat (length l) * s.
Proof.
  unfold np_sum. induction 1 as [|x l Hx _ IH]; [reflexivity|].
  cbn [foldr length]. lia.
Qed.

Lemma abs_total_frame (w w' : world) :
  frame w' = frame w ->
  abs_total (lattice (self w')) = abs_total (lattice (self w)).
Proof. unfold frame, abs_total. intros [= _ _ -> _ _ _]. reflexivity. Qed.

Section MeanBounds.
Variable ranf : nat -> Q.
Variable exp_fin : Q -> f64.
Variable BC : string.

Lemma totals_bounded (k : nat) (w : world) :
  Forall (fun t => Z.abs t <= abs_total (lattice (self w)))
    (totals ranf exp_fin BC k w).
Proof.
  revert w. induction k as [|k IH]; intros w; cbn [totals]; [constructor|].
  assert (Hf : abs_total (lattice (self (sweep_step ranf exp_fin BC w)))
               = abs_total (lattice (self w)))
    by (apply abs_total_frame, stable_sweep).
  constructor.
  - rewrite <- Hf. apply abs_np_sum.
  - rewrite <- Hf. apply IH.
Qed.

Lemma magnetization_Ns_value (t : scalar) (n : Z) (w : world) :
  1 <= n -> BC = "OBC"%string \/ BC = "PBC"%string -> ready w ->
  magnetization_Ns ranf exp_fin t n BC w
  = (Ok (Fin (inject_Z (np_sum (totals ranf exp_fin BC (Z.to_nat n) (with_T t w)))
              / inject_Z n)%Q),
     after_sweeps ranf exp_fin BC (Z.to_nat n) (with_T t w)).
Proof.
  intros Hn HBC Hw.
  assert (Hw0 : ready (with_T t w)) by (apply (ready_frame w); done).
  unfold magnetization_Ns.
  rewrite (bind_Ok _ _ w tt (with_T t w)) by reflexivity.
  apply Z.ltb_ge in Hn. rewrite Hn.
  erewrite bind_Ok; cycle 1.
  { rewrite (sweeps_accumulate ranf exp_fin BC _ _ _ HBC Hw0). reflexivity. }
  rewrite length_range. unfold lift. cbn [truediv val]. unfold np_true_divide.
  apply Z.ltb_ge in Hn.
  destruct (Z.eqb_spec n 0); [lia|]. now rewrite Z.add_0_l.
Qed.

(** X20. With [n >= 1] and a selector that is not recognized,
    [magnetization_Ns] raises the exception of the first [sweep]; [T] has
    been stored by then, and the lattice and the generator are untouched. *)
Theorem magnetization_Ns_unknown_BC (t : scalar) (n : Z) (w : world) :
  1 <= n -> BC <> "OBC"%string -> BC <> "PBC"%string ->
  magnetization_Ns ranf exp_fin t n BC w
  = (Raise (Exception BC_message), with_T t w)
  /\ lattice (self (with_T t w)) = lattice (self w)
  /\ drawn (with_T t w) = drawn w.
Proof.
  intros Hn H1 H2. split; [|done]. unfold magnetization_Ns.
  rewrite (bind_Ok _ _ w tt (with_T t w)) by reflexivity.
  pose proof Hn as Hn'. apply Z.ltb_ge in Hn'. rewrite Hn'.
  destruct (Z.to_nat n) as [|k] eqn:Ek; [lia|].
  unfold range. cbn [seq map for_acc].
  apply bind_Raise, bind_Raise, bind_Raise.
  unfold sweep. rewrite decide_False by exact H1.
  now rewrite decide_False by exact H2.
Qed.

(** X21. When [magnetization_Ns] returns (a recognized policy, [n >= 1],
    an instance as [__init__] builds it), its value lies between [-S] and
    [S], where [S] is the sum of the magnitudes of the cells before the
    call; on a lattice of cells [+m] and [-m] that is [|m|] times the number
    of cells. *)
Theorem magnetization_Ns_bounded (t : scalar) (n : Z) (w : world) :
  1 <= n -> BC = "OBC"%string \/ BC = "PBC"%string -> ready w ->
  let S := abs_total (lattice (self w)) in
  (exists q, (magnetization_Ns ranf exp_fin t n BC w).1 = Ok (Fin q)
             /\ (- inject_Z S <= q)%Q /\ (q <= inject_Z S)%Q)
  /\ (forall m, signed m (lattice (self w)) ->
        S = Z.abs m * Z.of_nat (size (lattice (self w)))).
Proof.
  intros Hn HBC Hw S. split.
  - rewrite (magnetization_Ns_value t n w Hn HBC Hw). cbn [fst].
    set (M := np_sum (totals ranf exp_fin BC (Z.to_nat n) (with_T t w))).
    exists (inject_Z M / inject_Z n)%Q. split; [reflexivity|].
    assert (HM : Z.abs M <= n * S).
    { pose proof (np_sum_bounded S _ (totals_bounded (Z.to_nat n) (with_T t w)))
        as H.
      rewrite length_totals in H. fold M in H. lia. }
    assert (Hq : (0 < inject_Z n)%Q) by (rewrite <- (Zlt_Qlt 0); lia).
    split.
    + apply Qle_shift_div_l; [exact Hq|].
      rewrite <- inject_Z_opp, <- inject_Z_mult, <- Zle_Qle. lia.
    + apply Qle_shift_div_r; [exact Hq|].
      rewrite <- inject_Z_mult, <- Zle_Qle. lia.
  - intros m Hm. subst S. unfold abs_total, size, signed in *.
    induction Hm as [|x l Hx _ IH]; [cbn; lia|].
    rewrite fmap_cons. unfold np_sum in *. cbn [foldr length]. lia.
Qed.

End MeanBounds.

Lemma magnetization_Ns_unknown_BC_witness :
  magnetization_Ns ranf_half exp_one (PyNum 5) 3 "XBC"
    (mk_world (init_default lattice_2x2) 0)
  = (Raise (Exception BC_message),
     mk_world (init lattice_2x2 (Jscalar 1) 0 (PyNum 1) (PyNum 5)) 0).
Proof.
  apply (proj1 (magnetization_Ns_unknown_BC ranf_half exp_one "XBC" (PyNum 5) 3
                  (mk_world (init_default lattice_2x2) 0) ltac:(lia)
                  ltac:(discriminate) ltac:(discriminate))).
Defined.

Lemma magnetization_Ns_bounded_witness :
  exists q, (magnetization_Ns ranf_half exp_one (PyNum 0) 2 "PBC"
               (mk_world (init_default lattice_2x2) 0)).1 = Ok (Fin q)
            /\ (- inject_Z 12 <= q)%Q /\ (q <= inject_Z 12)%Q.
Proof.
  apply (proj1 (magnetization_Ns_bounded ranf_half exp_one "PBC" (PyNum 0) 2
                  (mk_world (init_default lattice_2x2) 0) ltac:(lia)
                  (or_intror eq_refl) ltac:(repeat split))).
Defined.

(** ** What a call leaves in the instance *)

Section Leaves.
Variable ranf : nat -> Q.
Variable exp_fin : Q -> f64.

Lemma preserves_params_sweep (BC : string) :
  preserves params (sweep ranf exp_fin BC).
Proof.
  intros w. unfold sweep. repeat case_decide.
  - apply scan_effects; [apply readonly_spin_neighbor_OBC
                        | apply stable_spin_neighbor_OBC].
  - apply scan_effects; [apply readonly_spin_neighbor_PBC
                        | apply stable_spin_neighbor_PBC].
  - reflexivity.
Qed.

(** X22. After [magnetization_Ns(T, n, BC)], whether it returned or raised,
    the temperature of the instance is the argument [T], and [J], [epsilon]
    and [k_B] are what they were. *)
Theorem magnetization_Ns_leaves_T (t : scalar) (n : Z) (BC : string) (w : world) :
  params (magnetization_Ns ranf exp_fin t n BC w).2
  = (J (self w), epsilon (self w), k_B (self w), t).
Proof.
  unfold magnetization_Ns.
  rewrite (bind_Ok _ _ w tt (with_T t w)) by reflexivity.
  change (J (self w), epsilon (self w), k_B (self w), t)
    with (params (with_T t w)).
  generalize (with_T t w). change (preserves params
    (if n <? 1 then raise (Exception n_message)
     else for_acc (range (Z.to_nat n)) 0
            (fun (M : Z) (_ : Z) =>
               sweep ranf exp_fin BC ≫= fun _ => s ← summary; mret (M + s.2))
          ≫= fun M => lift (truediv (NpNum M) (PyNum n)))).
  apply preserves_if; [apply preserves_raise|].
  apply preserves_bind; [|intros; apply preserves_lift].
  apply preserves_for_acc. intros M _.
  apply preserves_bind; [apply preserves_params_sweep|intros _].
  apply preserves_bind; [apply readonly_preserves, readonly_summary|].
  intros; apply preserves_ret.
Qed.

End Leaves.

(** ** More on the summary *)

Lemma count_split (l : list Z) :
  Z.of_nat (length (filter (fun x => 0 < x) l))
  + Z.of_nat (length (filter (fun x => x < 0) l))
  + Z.of_nat (length (filter (fun x => x = 0) l))
  = Z.of_nat (length l).
Proof.
  induction l as [|x l IH]; [reflexivity|].
  destruct (Z.lt_trichotomy x 0) as [Hx | [-> | Hx]].
  - rewrite (filter_cons_False (fun x => 0 < x)) by lia.
    rewrite (filter_cons_True (fun x => x < 0)) by lia.
    rewrite (filter_cons_False (fun x => x = 0)) by lia.
    cbn [length]. lia.
  - rewrite (filter_cons_False (fun x => 0 < x)) by lia.
    rewrite (filter_cons_False (fun x => x < 0)) by lia.
    rewrite (filter_cons_True (fun x => x = 0)) by lia.
    cbn [length]. lia.
  - rewrite (filter_cons_True (fun x => 0 < x)) by lia.
    rewrite (filter_cons_False (fun x => x < 0)) by lia.
    rewrite (filter_cons_False (fun x => x = 0)) by lia.
    cbn [length]. lia.
Qed.

(** X23. On every lattice [summary] returns, without changing the state,
    counts [p] and [n] that together with the number of cells equal to 0
    make up the number of cells, so [p + n] is at most that number, and a
    total whose magnitude is at most the sum of the magnitudes of the
    cells. *)
Theorem summary_counts (w : world) :
  exists p n t : Z,
    summary w = (Ok (p, n, t), w)
    /\ p + n + count_zero (lattice (self w)) = Z.of_nat (size (lattice (self w)))
    /\ 0 <= p /\ 0 <= n /\ p + n <= Z.of_nat (size (lattice (self w)))
    /\ Z.abs t <= abs_total (lattice (self w)).
Proof.
  exists (count_pos (lattice (self w))), (count_neg (lattice (self w))),
         (total (lattice (self w))).
  pose proof (count_split (data (lattice (self w)))) as H.
  unfold count_pos, count_neg, count_zero, size, total, abs_total.
  repeat split; try lia. apply abs_np_sum.
Qed.
